(** * Voting demo backend: registry, broadcaster and vote handler

    A shallow embedding of [src/main.py]: the [ConnectionManager] class
    (a dict from product id to a list of websockets), the request models,
    and the handlers [create_product] and [cast_vote], followed by the
    properties of the specification proved over them. *)

From Stdlib Require Import ZArith Lia Ascii String SpecFloat Sorted.
From stdpp Require Import gmap strings list fin_maps.

(** ** Python values used by the handlers *)

Module Py.

(** Exceptions that can leave a handler. [HTTPException] is FastAPI's;
    [OverflowError] is what [datetime] arithmetic raises out of range. *)
Inductive exn : Type :=
| HTTPException (status_code : Z) (detail : string)
| OverflowError.

Inductive outcome (A : Type) : Type :=
| Return (a : A)
| Raise (e : exn).
Arguments Return {A} a.
Arguments Raise {A} e.

(** *** [int(str)] on ASCII text: surrounding whitespace is stripped, one
    optional sign, then decimal digits with single underscores between
    digits. *)
Definition is_space (c : ascii) : bool :=
  let n := nat_of_ascii c in
  (n =? 32)%nat || ((9 <=? n)%nat && (n <=? 13)%nat)
                || ((28 <=? n)%nat && (n <=? 31)%nat).

Definition is_digit (c : ascii) : bool :=
  let n := nat_of_ascii c in (48 <=? n)%nat && (n <=? 57)%nat.

Definition digit_value (c : ascii) : Z := Z.of_nat (nat_of_ascii c - 48).

Fixpoint lstrip (cs : list ascii) : list ascii :=
  match cs with
  | c :: cs' => if is_space c then lstrip cs' else cs
  | [] => []
  end.

Definition strip (cs : list ascii) : list ascii :=
  rev (lstrip (rev (lstrip cs))).

Fixpoint digits (acc : Z) (after_digit : bool) (cs : list ascii) : option Z :=
  match cs with
  | [] => if after_digit then Some acc else None
  | c :: cs' =>
      if is_digit c then digits (acc * 10 + digit_value c)%Z true cs'
      else if Ascii.eqb c "_"%char
           then (if after_digit then digits acc false cs' else None)
           else None
  end.

Definition int (s : string) : option Z :=
  match strip (list_ascii_of_string s) with
  | c :: cs =>
      if Ascii.eqb c "-"%char then Z.opp <$> digits 0 false cs
      else if Ascii.eqb c "+"%char then digits 0 false cs
      else digits 0 false (c :: cs)
  | [] => None
  end.

(** *** [datetime] and [timedelta]

    A [datetime] is its wall-clock fields, counted in microseconds from
    midnight of proleptic ordinal day 0, together with its [tzinfo]
    (the UTC offset in seconds when aware).  Valid values lie between
    ordinal day 1 and ordinal day [MAXORDINAL]. *)
Record datetime : Type := mk_datetime { wall : Z; tzinfo : option Z }.

Definition DAY : Z := 86400 * 1000000.
Definition MAXORDINAL : Z := 3652059.
Definition MAX_DELTA_DAYS : Z := 999999999.

Definition datetime_ok (d : datetime) : bool :=
  let days := (wall d / DAY)%Z in (0 <? days)%Z && (days <=? MAXORDINAL)%Z.

(** [timedelta(hours=h)]: the span in microseconds, [OverflowError]
    when its day count leaves [-999999999, 999999999]. *)
Definition timedelta_hours (h : Z) : outcome Z :=
  let us := (h * 3600 * 1000000)%Z in
  if (Z.abs (us / DAY) <=? MAX_DELTA_DAYS)%Z then Return us else Raise OverflowError.

(** [d + delta]: field-wise addition, the [tzinfo] is kept. *)
Definition datetime_add (d : datetime) (delta : Z) : outcome datetime :=
  let r := mk_datetime (wall d + delta) (tzinfo d) in
  if datetime_ok r then Return r else Raise OverflowError.

End Py.

Export Py.

(** [l.remove(x)]: drops the first occurrence of [x]; [None] stands for the
    [ValueError] raised when there is none. *)
Fixpoint list_remove {A} `{EqDecision A} (x : A) (l : list A) : option (list A) :=
  match l with
  | [] => None
  | y :: l' => if decide (x = y) then Some l' else (y ::.) <$> list_remove x l'
  end.

(** [del d[k]]; [None] stands for the [KeyError] raised on a missing key. *)
Definition dict_del {V} (k : string) (d : gmap string V) : option (gmap string V) :=
  if decide (is_Some (d !! k)) then Some (delete k d) else None.

(** ** The subscription registry and broadcaster: [class ConnectionManager] *)

Module ConnectionManager.

(** A websocket object; [in] and [remove] compare websockets by identity,
    so a websocket is modelled by its identity. *)
Definition WebSocket : Type := nat.

(** [self.active: dict[str, list[WebSocket]]] *)
Abbreviation Active := (gmap string (list WebSocket)).

(** [__init__] *)
Definition init : Active := ∅.

(** [self.active.get(product_id, [])] *)
Definition get (self : Active) (product_id : string) : list WebSocket :=
  default [] (self !! product_id).

(** [connect]: [accepted] is whether [await websocket.accept()] returned;
    when it raised, the exception leaves [connect] before the registry is
    touched. *)
Definition connect (accepted : bool) (product_id : string) (websocket : WebSocket)
    (self : Active) : Active :=
  if accepted
  then <[product_id := get self product_id ++ [websocket]]> self
  else self.

(** [disconnect]: [conns] is the list held by the dict (or a new empty
    list for an unknown key) and [remove] mutates it in place.  [None] when
    an exception leaves the method. *)
Definition disconnect (product_id : string) (websocket : WebSocket)
    (self : Active) : option Active :=
  let conns := get self product_id in
  conns' ← (if decide (websocket ∈ conns)
            then list_remove websocket conns else Some conns);
  let self' := alter (λ _, conns') product_id self in
  if bool_decide (conns' = []) && bool_decide (is_Some (self' !! product_id))
  then dict_del product_id self'
  else Some self'.

Section Broadcast.
Context {M : Type}.
(** [send_json i ws message]: whether the [i]-th [await ws.send_json(message)]
    of this broadcast returned ([true]) or raised an [Exception] ([false]). *)
Variable send_json : nat → WebSocket → M → bool.

(** The loop over the snapshot, from the [i]-th send on, with the attempts
    it makes.  [except Exception: pass] puts a send that raised where one
    that returned is: at the next iteration. *)
Fixpoint send_each (i : nat) (snapshot : list WebSocket) (message : M)
    : list (WebSocket * bool) :=
  match snapshot with
  | [] => []
  | ws :: rest =>
      if send_json i ws message
      then (ws, true) :: send_each (S i) rest message
      else (ws, false) :: send_each (S i) rest message
  end.

(** [broadcast]: the loop runs over [list(...)], a copy of the registered
    list.  Returns the send attempts in order, each with whether it was
    delivered. *)
Definition broadcast (product_id : string) (message : M) (self : Active)
    : list (WebSocket * bool) :=
  let snapshot := get self product_id in
  send_each 0 snapshot message.
End Broadcast.

(** Registry operations as the websocket endpoint issues them. *)
Inductive op : Type :=
| Connect (accepted : bool) (product_id : string) (websocket : WebSocket)
| Disconnect (product_id : string) (websocket : WebSocket).

Definition apply_op (self : Active) (o : op) : option Active :=
  match o with
  | Connect accepted product_id websocket =>
      Some (connect accepted product_id websocket self)
  | Disconnect product_id websocket => disconnect product_id websocket self
  end.

(** The registry after a history of operations on a new manager. *)
Definition run (ops : list op) : option Active :=
  foldl (λ acc o, acc ≫= λ self, apply_op self o) (Some init) ops.

(** Registering the websockets of [wss] one after the other. *)
Definition connect_all (product_id : string) (wss : list WebSocket) (self : Active)
    : Active :=
  foldl (λ a ws, connect true product_id ws a) self wss.

(** A topic key is present exactly when it has channels. *)
Definition registry_inv (self : Active) : Prop :=
  ∀ product_id : string, is_Some (self !! product_id) ↔ get self product_id ≠ [].

(** How many times [websocket] is registered under [product_id]. *)
Definition registrations (self : Active) (product_id : string)
    (websocket : WebSocket) : nat :=
  length (filter (websocket =.) (get self product_id)).

End ConnectionManager.

Import ConnectionManager.

(** ** Request models and documents *)

(** [VoteOption = Literal["auction", "buy_now", "tokenization", "raffle",
    "not_interested"]] *)
Inductive VoteOption : Type :=
| auction | buy_now | tokenization | raffle | not_interested.

(** The string a [VoteOption] is, as used to index [counts]. *)
Definition option_key (o : VoteOption) : string :=
  match o with
  | auction => "auction"
  | buy_now => "buy_now"
  | tokenization => "tokenization"
  | raffle => "raffle"
  | not_interested => "not_interested"
  end.

Definition all_options : list VoteOption :=
  [auction; buy_now; tokenization; raffle; not_interested].

Module ProductIn.
Record t : Type := mk {
  title : string;
  description : option string;
  images : list string;
  auction_start_price : option spec_float;
  buy_now_price : option spec_float;
  shares_total : option Z;
  share_price : option spec_float;
  raffle_tickets_total : option Z;
  raffle_ticket_price : option spec_float;
  vote_start_at : option datetime;
}.
End ProductIn.

Module VoteIn.
Record t : Type := mk {
  option : VoteOption;
  desired_shares : Datatypes.option Z;
  desired_tickets : Datatypes.option Z;
}.

(** [Field(None, ge=1)] on both quantity hints. *)
Definition ge1 (x : Datatypes.option Z) : bool :=
  match x with
  | Some n => (1 <=? n)%Z
  | None => true
  end.

Definition valid (v : t) : bool := ge1 (desired_shares v) && ge1 (desired_tickets v).
End VoteIn.

(** A document of the [product] collection.  [status] and [counts] are read
    with [dict.get], so either may be missing.  A tally is a Python [int]. *)
Module Product.
Record locale_t : Type := mk_locale {
  locale : string;
  title : string;
  description : option string;
}.

Record t : Type := mk {
  locales : list locale_t;
  images : list string;
  auction_start_price : option spec_float;
  buy_now_price : option spec_float;
  shares_total : option Z;
  share_price : option spec_float;
  raffle_tickets_total : option Z;
  raffle_ticket_price : option spec_float;
  vote_start_at : datetime;
  vote_end_at : datetime;
  status : option string;
  counts : option (gmap string Z);
}.

(** The patch [{"$set": {"counts": c}}]. *)
Definition set_counts (c : gmap string Z) (p : t) : t :=
  mk (locales p) (images p) (auction_start_price p) (buy_now_price p)
     (shares_total p) (share_price p) (raffle_tickets_total p)
     (raffle_ticket_price p) (vote_start_at p) (vote_end_at p) (status p) (Some c).
End Product.

(** The envelope pushed to subscribers.  [server_time] is the clock reading
    that the source renders with [isoformat()]. *)
Record Message : Type := mk_message {
  msg_type : string;
  msg_product_id : string;
  msg_counts : gmap string Z;
  msg_server_time : datetime;
}.

(** One call of [manager.broadcast] with the send attempts it made. *)
Record BroadcastCall : Type := mk_call {
  call_topic : string;
  call_message : Message;
  call_attempts : list (WebSocket * bool);
}.

(** The counts carried by a list of broadcast calls, in order. *)
Definition broadcast_counts (bs : list BroadcastCall) : list (gmap string Z) :=
  (λ b, msg_counts (call_message b)) <$> bs.

(** Per option, [c2] is at least [c1]: every tally of [c1] is there in [c2]
    and not smaller. *)
Definition counts_le (c1 c2 : gmap string Z) : Prop :=
  ∀ (k : string) (n1 : Z), c1 !! k = Some n1 → ∃ n2, c2 !! k = Some n2 ∧ (n1 ≤ n2)%Z.

(** [{"data": {"ok": True, "counts": counts}}] *)
Record VoteResponse : Type := mk_response {
  resp_ok : bool;
  resp_counts : gmap string Z;
}.

(** [DEFAULT_WINDOW_HOURS = int(os.getenv("VOTE_WINDOW_HOURS", "72"))];
    [None] when [int] raises, which stops the module from loading. *)
Definition DEFAULT_WINDOW_HOURS (getenv : string → option string) : option Z :=
  Py.int (default "72" (getenv "VOTE_WINDOW_HOURS")).

(** The [counts] literal of [create_product]. *)
Definition zero_counts : gmap string Z :=
  <["auction" := 0%Z]> (<["buy_now" := 0%Z]> (<["tokenization" := 0%Z]>
    (<["raffle" := 0%Z]> (<["not_interested" := 0%Z]> ∅)))).

(** ** The handlers *)

Section Handlers.
Context {OID : Type} `{Countable OID}.

(** [bson.ObjectId(s)], [None] when it raises on [s]; the text of an
    identifier; and the store's choice of identifier for a new document. *)
Variable ObjectId : string → option OID.
Variable id_str : OID → string.
Variable new_id : gmap OID Product.t → OID.

(** Modelled from the spec: the document store behind [database.py] ([db],
    [create_document], [get_documents]), which is not among the sources:
    "a generic store exposing insert(collection, doc) -> id,
    query(collection, filter, limit) -> [doc], update(collection, id, patch)".
    The [product] collection is a finite map from identifiers to documents;
    a query hands out copies of the stored documents. *)
Definition create_document (db : gmap OID Product.t) (doc : Product.t)
    : gmap OID Product.t * string :=
  let oid := new_id db in (<[oid := doc]> db, id_str oid).

Definition get_documents (db : gmap OID Product.t) (_id : OID) (limit : nat)
    : list Product.t :=
  take limit (option_list (db !! _id)).

Definition update_one (db : gmap OID Product.t) (_id : OID)
    (patch : Product.t → Product.t) : gmap OID Product.t :=
  alter patch _id db.

(** What the handlers share: the [product] collection and the module-level
    [manager]. *)
Record World : Type := mk_world {
  db_product : gmap OID Product.t;
  manager : Active;
}.

(** [create_product], with [window_hours] the loaded [DEFAULT_WINDOW_HOURS]
    and [now] the clock reading.  Returns the new identifier and [doc]. *)
Definition create_product (window_hours : Z) (now : datetime)
    (payload : ProductIn.t) (w : World) : World * outcome (string * Product.t) :=
  let vote_start_at := default now (ProductIn.vote_start_at payload) in
  match timedelta_hours window_hours with
  | Raise e => (w, Raise e)
  | Return window =>
      match datetime_add vote_start_at window with
      | Raise e => (w, Raise e)
      | Return vote_end_at =>
          let loc l :=
            Product.mk_locale l (ProductIn.title payload) (ProductIn.description payload) in
          let doc :=
            Product.mk [loc "ro"; loc "en"; loc "it"]
              (ProductIn.images payload)
              (ProductIn.auction_start_price payload)
              (ProductIn.buy_now_price payload)
              (ProductIn.shares_total payload)
              (ProductIn.share_price payload)
              (ProductIn.raffle_tickets_total payload)
              (ProductIn.raffle_ticket_price payload)
              vote_start_at vote_end_at
              (Some "in_voting")
              (Some zero_counts) in
          let '(db, pid) := create_document (db_product w) doc in
          (mk_world db (manager w), Return (pid, doc))
      end
  end.

(** [cast_vote].  [now] is the clock reading taken for [server_time] and
    [send_json] the fate of each websocket send of the broadcast, which
    [anyio.from_thread.run] runs to its end on the server's event loop;
    [broadcast] lets no exception out, so the [try] around it has nothing to
    catch.  Returns the world afterwards, what the caller gets, and the
    broadcast calls made. *)
Definition cast_vote (now : datetime) (send_json : nat → WebSocket → Message → bool)
    (product_id : string) (vote : VoteIn.t) (w : World)
    : World * outcome VoteResponse * list BroadcastCall :=
  match ObjectId product_id with
  | None => (w, Raise (HTTPException 404 "Product not found"), [])
  | Some _id =>
      match get_documents (db_product w) _id 1 with
      | [] => (w, Raise (HTTPException 404 "Product not found"), [])
      | product :: _ =>
          if negb (bool_decide (Product.status product = Some "in_voting"))
          then (w, Raise (HTTPException 400 "Voting not active"), [])
          else
            let counts := default ∅ (Product.counts product) in
            let key := option_key (VoteIn.option vote) in
            if negb (bool_decide (is_Some (counts !! key)))
            then (w, Raise (HTTPException 400 "Invalid option"), [])
            else
              let counts := <[key := (default 0 (counts !! key) + 1)%Z]> counts in
              let db := update_one (db_product w) _id (Product.set_counts counts) in
              let message := mk_message "votes.update" product_id counts now in
              let attempts := broadcast send_json product_id message (manager w) in
              (mk_world db (manager w),
               Return (mk_response true counts),
               [mk_call product_id message attempts])
      end
  end.

(** A run of votes on one product, each with its own clock reading and
    transport behaviour; the responses and broadcast calls are collected in
    order. *)
Fixpoint cast_votes (product_id : string)
    (calls : list (datetime * (nat → WebSocket → Message → bool) * VoteIn.t))
    (w : World) : World * list (outcome VoteResponse) * list BroadcastCall :=
  match calls with
  | [] => (w, [], [])
  | (now, send_json, vote) :: rest =>
      let '(w1, r, bs) := cast_vote now send_json product_id vote w in
      let '(w2, rs, bs') := cast_votes product_id rest w1 in
      (w2, r :: rs, bs ++ bs')
  end.

(** The counts the store holds for [product_id] (none for an unknown
    product). *)
Definition stored_counts (product_id : string) (w : World) : gmap string Z :=
  match ObjectId product_id with
  | Some _id =>
      match db_product w !! _id with
      | Some product => default ∅ (Product.counts product)
      | None => ∅
      end
  | None => ∅
  end.

End Handlers.

Arguments World OID {_ _}.
Arguments mk_world {OID _ _} _ _.
Arguments db_product {OID _ _} _.
Arguments manager {OID _ _} _.

(** ** A concrete setting for the examples

    Identifiers are their 24-character text, the store hands out one fixed
    identifier, the clock reads midnight UTC of 1 January 2024 (ordinal day
    738886) and the environment sets no variable. *)
Module Demo.
Definition ObjectId (s : string) : option string :=
  if decide (String.length s = 24) then Some s else None.
Definition id_str (oid : string) : string := oid.
Definition pid : string := "65a1b2c3d4e5f60718293a4b".
Definition new_id (db : gmap string Product.t) : string := pid.
Definition getenv (name : string) : option string := None.
Definition now : datetime := mk_datetime (738886 * DAY) (Some 0%Z).
Definition payload : ProductIn.t :=
  ProductIn.mk "Vintage watch" None [] None None None None None None None.
Definition all_delivered (i : nat) (ws : WebSocket) (m : Message) : bool := true.
Definition second_fails (i : nat) (ws : WebSocket) (m : Message) : bool :=
  negb (i =? 1)%nat.

(** A stored document in a given state; with [in_voting] and
    [zero_counts] it is the document [create_product] makes for [payload]
    at [now]. *)
Definition stored (status : string) (counts : gmap string Z) : Product.t :=
  Product.mk
    [Product.mk_locale "ro" "Vintage watch" None;
     Product.mk_locale "en" "Vintage watch" None;
     Product.mk_locale "it" "Vintage watch" None]
    [] None None None None None None
    now (mk_datetime (738889 * DAY) (Some 0%Z))
    (Some status) (Some counts).

Definition product : Product.t := stored "in_voting" zero_counts.

(** Counts that were written without the [raffle] key. *)
Definition partial_counts : gmap string Z :=
  <["auction" := 3%Z]> (<["buy_now" := 1%Z]> ∅).

Definition vote (o : VoteOption) : VoteIn.t := VoteIn.mk o None None.

(** A world with one product stored and three viewers of it connected. *)
Definition world_of (p : Product.t) : World string :=
  mk_world {[ pid := p ]} (connect_all pid [1; 2; 3] init).
Definition world : World string := world_of product.
End Demo.

(** ** The other endpoints *)

(** How a websocket session leaves its receive loop: with
    [WebSocketDisconnect], which [ws_product] catches, or with any other
    exception, which it does not. *)
Inductive ws_exit : Type :=
| WebSocketDisconnect
| OtherException.

(** The [while True] loop of [ws_product]: the texts received are dropped
    one by one until [receive_text] raises; only [WebSocketDisconnect]
    leads to [manager.disconnect]. *)
Fixpoint ws_receive_loop (received : list string) (exit : ws_exit)
    (product_id : string) (websocket : WebSocket) (self : Active) : option Active :=
  match received with
  | _ :: rest => ws_receive_loop rest exit product_id websocket self
  | [] =>
      match exit with
      | WebSocketDisconnect => disconnect product_id websocket self
      | OtherException => Some self
      end
  end.

(** [ws_product], for a session that ends: the registry it leaves.  When
    [accept] raises, the exception leaves through [manager.connect], before
    the [try]. *)
Definition ws_product (accepted : bool) (received : list string) (exit : ws_exit)
    (product_id : string) (websocket : WebSocket) (self : Active) : option Active :=
  if accepted
  then ws_receive_loop received exit product_id websocket
         (connect true product_id websocket self)
  else Some (connect false product_id websocket self).

(** The websocket an operation is about. *)
Definition op_websocket (o : op) : WebSocket :=
  match o with
  | Connect _ _ websocket => websocket
  | Disconnect _ websocket => websocket
  end.

(** The registry after the operations [ops], started from [self]. *)
Definition run_from (self : Active) (ops : list op) : option Active :=
  foldl (λ acc o, acc ≫= λ s, apply_op s o) (Some self) ops.

(** [a] is [b] with one more registration, of [websocket] under
    [product_id], which [b] does not have there. *)
Definition with_session (product_id : string) (websocket : WebSocket)
    (a b : Active) : Prop :=
  (∀ t : string, t ≠ product_id → a !! t = b !! t) ∧
  ∃ l1 l2 : list WebSocket,
    get a product_id = l1 ++ websocket :: l2 ∧ get b product_id = l1 ++ l2 ∧
    websocket ∉ l1 ++ l2.

Section Endpoints.
Context {OID : Type} `{Countable OID}.
Variable ObjectId : string → option OID.
Variable id_str : OID → string.
Variable new_id : gmap OID Product.t → OID.

(** Modelled from the spec: the store's [query(collection, filter, limit)]
    for the filter [{"status": status}], on the [product] collection held as
    a finite map.  The documents come with their identifiers, in the order
    in which the map lists them. *)
Definition get_documents_by_status (db : gmap OID Product.t) (status : string)
    (limit : nat) : list (OID * Product.t) :=
  take limit (filter (λ it, Product.status it.2 = Some status) (map_to_list db)).

(** [list_products]: each item with its [_id] turned into text. *)
Definition list_products (w : World OID) : list (string * Product.t) :=
  let items := get_documents_by_status (db_product w) "in_voting" 100 in
  (λ it, (id_str it.1, it.2)) <$> items.

(** [get_product]: the document with its [_id] turned into text. *)
Definition get_product (product_id : string) (w : World OID)
    : outcome (string * Product.t) :=
  match ObjectId product_id with
  | None => Raise (HTTPException 404 "Product not found")
  | Some _id =>
      match get_documents (db_product w) _id 1 with
      | [] => Raise (HTTPException 404 "Product not found")
      | it :: _ => Return (id_str _id, it)
      end
  end.




End Endpoints.



(** How many of the votes [calls] are for the option with key [k]. *)
Definition votes_for (k : string)
    (calls : list (datetime * (nat → WebSocket → Message → bool) * VoteIn.t)) : nat :=
  length (filter (λ c, option_key (VoteIn.option c.2) = k) calls).

(** ** Identifiers read as [bson] reads them

    24 hexadecimal digits in either case; two texts that differ in case
    only are the same identifier, whose text is in lower case. *)
Module Hex.
Definition is_hex (c : ascii) : bool :=
  let n := nat_of_ascii c in
  ((48 <=? n)%nat && (n <=? 57)%nat) || ((97 <=? n)%nat && (n <=? 102)%nat)
  || ((65 <=? n)%nat && (n <=? 70)%nat).

Definition lower (c : ascii) : ascii :=
  let n := nat_of_ascii c in
  if (65 <=? n)%nat && (n <=? 70)%nat then ascii_of_nat (n + 32) else c.

Definition ObjectId (s : string) : option string :=
  let cs := list_ascii_of_string s in
  if (length cs =? 24)%nat && forallb is_hex cs
  then Some (string_of_list_ascii (lower <$> cs))
  else None.

Definition id_str (oid : string) : string := oid.

Definition pid_lower : string := "65a1b2c3d4e5f60718293a4b".
Definition pid_upper : string := "65A1B2C3D4E5F60718293A4B".

(** [Demo.product] stored, with one viewer under each spelling of its
    identifier. *)
Definition world : World string :=
  mk_world {[ pid_lower := Demo.product ]}
    (connect true pid_upper 2 (connect true pid_lower 1 init)).
End Hex.

(** ** Properties of the registry and the broadcaster *)

Section ListRemove.
Context {A : Type} `{EqDecision A}.
Implicit Types (x : A) (l : list A).

Lemma list_remove_split x l l' :
  list_remove x l = Some l' →
  ∃ l1 l2, l = l1 ++ x :: l2 ∧ l' = l1 ++ l2 ∧ x ∉ l1.
Proof.
  revert l'. induction l as [|y l IH]; intros l' Hr; simpl in Hr; [done|].
  destruct (decide (x = y)) as [->|Hne].
  - injection Hr as <-. exists [], l. split_and!; [done..|]. apply not_elem_of_nil.
  - destruct (list_remove x l) as [r|] eqn:Er; simpl in Hr; [|done].
    injection Hr as <-.
    destruct (IH r eq_refl) as (l1 & l2 & -> & -> & Hnot).
    exists (y :: l1), l2. split_and!; [done..|].
    rewrite not_elem_of_cons. by split.
Qed.

Lemma list_remove_elem x l : x ∈ l → is_Some (list_remove x l).
Proof.
  induction l as [|y l IH]; intros Hin; [by apply elem_of_nil in Hin|].
  simpl. destruct (decide (x = y)) as [|Hne]; [by eexists|].
  apply elem_of_cons in Hin as [?|Hin]; [done|].
  destruct (IH Hin) as [r ->]. by eexists.
Qed.

Lemma list_remove_not_elem x l : x ∉ l → list_remove x l = None.
Proof.
  intros Hnot. destruct (list_remove x l) as [r|] eqn:Er; [|done].
  apply list_remove_split in Er as (l1 & l2 & Hl & _).
  exfalso. apply Hnot. rewrite Hl. set_solver.
Qed.

Lemma filter_eq_elem x l : 0 < length (filter (x =.) l) → x ∈ l.
Proof.
  destruct (filter (x =.) l) as [|y r] eqn:Ef; simpl; [lia|]. intros _.
  assert (y ∈ filter (x =.) l) as Hy by (rewrite Ef; left).
  apply list_elem_of_filter in Hy as [-> Hy]. done.
Qed.

Lemma list_remove_length x l l' :
  list_remove x l = Some l' → length l = S (length l').
Proof.
  intros (l1 & l2 & -> & -> & _)%list_remove_split.
  rewrite !length_app. simpl. lia.
Qed.

Lemma list_remove_filter_eq x l l' :
  list_remove x l = Some l' →
  length (filter (x =.) l) = S (length (filter (x =.) l')).
Proof.
  intros (l1 & l2 & -> & -> & _)%list_remove_split.
  rewrite !filter_app, filter_cons_True by done.
  rewrite !length_app. simpl. lia.
Qed.

Lemma list_remove_filter_ne x y l l' :
  x ≠ y → list_remove x l = Some l' → filter (y =.) l = filter (y =.) l'.
Proof.
  intros Hne (l1 & l2 & -> & -> & _)%list_remove_split.
  rewrite !filter_app, filter_cons_False; [done|]. congruence.
Qed.

End ListRemove.

Section Registry.
Implicit Types (self : Active) (t : string) (ws : WebSocket).

Lemma get_nonempty_lookup self t :
  get self t ≠ [] → self !! t = Some (get self t).
Proof. unfold get. destruct (self !! t); simpl; [done|]. by intros []. Qed.

Lemma get_lookup_Some self t l : self !! t = Some l → get self t = l.
Proof. unfold get. by intros ->. Qed.

Lemma get_delete self t : get (delete t self) t = [].
Proof. unfold get. by rewrite lookup_delete_eq. Qed.

Lemma get_connect self t ws :
  get (connect true t ws self) t = get self t ++ [ws].
Proof. unfold connect, get. by rewrite lookup_insert_eq. Qed.

Lemma get_connect_ne self acc t t' ws :
  t ≠ t' → get (connect acc t ws self) t' = get self t'.
Proof.
  intros Hne. unfold connect, get. destruct acc; [|done].
  by rewrite lookup_insert_ne.
Qed.

Lemma get_connect_all self t wss :
  get (connect_all t wss self) t = get self t ++ wss.
Proof.
  unfold connect_all. revert self.
  induction wss as [|ws wss IH]; intros self; cbn [foldl].
  - by rewrite app_nil_r.
  - rewrite IH, get_connect. by rewrite <- app_assoc.
Qed.

Lemma alter_get_id self t : alter (λ _, get self t) t self = self.
Proof.
  apply map_eq. intros k. rewrite lookup_alter. case_decide as Hk; [|done].
  subst k. unfold get. by destruct (self !! t).
Qed.

(** What [disconnect] does, in one statement: it returns, the list of
    [t] loses the first occurrence of [ws] if it has one, the other topics
    are as before, and [t] is left as a key only with a non-empty list. *)
Lemma disconnect_spec self t ws :
  ∃ self', disconnect t ws self = Some self' ∧
    get self' t = default (get self t) (list_remove ws (get self t)) ∧
    (∀ t', t' ≠ t → self' !! t' = self !! t') ∧
    (is_Some (self' !! t) → get self' t ≠ []).
Proof.
  unfold disconnect. destruct (decide (ws ∈ get self t)) as [Hin|Hnot].
  - destruct (list_remove_elem _ _ Hin) as [l' Hl']. rewrite Hl'. simpl.
    assert (self !! t = Some (get self t)) as Hlk.
    { apply get_nonempty_lookup. intros Hnil. rewrite Hnil in Hin.
      by apply elem_of_nil in Hin. }
    assert (alter (λ _, l') t self !! t = Some l') as Halt.
    { rewrite lookup_alter. case_decide; [|done]. by rewrite Hlk. }
    destruct (decide (l' = [])) as [->|Hne].
    + rewrite bool_decide_eq_true_2 by done.
      rewrite bool_decide_eq_true_2 by (by rewrite Halt).
      unfold dict_del. rewrite decide_True by (by rewrite Halt).
      eexists. split; [done|]. rewrite get_delete, lookup_delete_eq.
      split_and!; [done| |by intros [??]].
      intros t' Hne. rewrite lookup_delete_ne by done.
      rewrite lookup_alter. by case_decide.
    + rewrite bool_decide_eq_false_2 by done. simpl.
      eexists. split; [done|]. rewrite (get_lookup_Some _ _ _ Halt).
      split_and!; [done| |done].
      intros t' Hne'. rewrite lookup_alter. by case_decide.
  - simpl. rewrite alter_get_id.
    rewrite (list_remove_not_elem _ _ Hnot).
    simpl.
    destruct (decide (get self t = [])) as [Hnil|Hne].
    + destruct (self !! t) as [l|] eqn:Hlk.
      * rewrite bool_decide_eq_true_2 by done.
        rewrite bool_decide_eq_true_2 by done. simpl.
        unfold dict_del. rewrite decide_True by done.
        eexists. split; [done|]. rewrite get_delete, lookup_delete_eq.
        split_and!; [done| |by intros [??]].
        intros t' Hne. by rewrite lookup_delete_ne.
      * rewrite bool_decide_eq_true_2 by done.
        rewrite (bool_decide_eq_false_2 (is_Some _)) by (by intros [??]).
        simpl. eexists. split; [done|]. split_and!; [done|done|].
        rewrite Hlk. by intros [??].
    + rewrite bool_decide_eq_false_2 by done. simpl.
      eexists. split; [done|]. by split_and!.
Qed.

Lemma registry_inv_alt self :
  registry_inv self ↔ ∀ t, self !! t ≠ Some [].
Proof.
  unfold registry_inv, get. split.
  - intros Hinv t Ht. destruct (Hinv t) as [Hto _].
    rewrite Ht in Hto. simpl in Hto. by apply Hto.
  - intros Hne t. specialize (Hne t). destruct (self !! t) as [l|]; simpl.
    + split; [congruence|by eexists].
    + split; [by intros []|done].
Qed.

Lemma registry_inv_init : registry_inv init.
Proof. apply registry_inv_alt. intros t. unfold init. by rewrite lookup_empty. Qed.

Lemma registry_inv_connect self acc t ws :
  registry_inv self → registry_inv (connect acc t ws self).
Proof.
  rewrite !registry_inv_alt. intros Hinv t'. unfold connect.
  destruct acc; [|done].
  destruct (decide (t = t')) as [<-|Hne].
  - rewrite lookup_insert_eq. intros [= Happ]. by destruct (get self t).
  - by rewrite lookup_insert_ne.
Qed.

Lemma registry_inv_disconnect self self' t ws :
  registry_inv self → disconnect t ws self = Some self' → registry_inv self'.
Proof.
  rewrite !registry_inv_alt. intros Hinv Hd t' Hnil.
  destruct (disconnect_spec self t ws) as (s & Hs & _ & Hother & Hkey).
  rewrite Hd in Hs. injection Hs as <-.
  destruct (decide (t' = t)) as [->|Hne].
  - apply Hkey; [by rewrite Hnil|]. unfold get. by rewrite Hnil.
  - rewrite Hother in Hnil by done. by apply (Hinv t').
Qed.

Lemma registry_inv_apply_op self o :
  registry_inv self → ∃ self', apply_op self o = Some self' ∧ registry_inv self'.
Proof.
  intros Hinv. destruct o as [acc t ws|t ws]; simpl.
  - eexists. split; [done|]. by apply registry_inv_connect.
  - destruct (disconnect_spec self t ws) as (s & Hs & _).
    exists s. split; [done|]. by eapply registry_inv_disconnect.
Qed.

Lemma registry_inv_run ops :
  ∃ self, run ops = Some self ∧ registry_inv self.
Proof.
  unfold run. induction ops as [|o ops IH] using rev_ind; simpl.
  - exists init. split; [done|]. apply registry_inv_init.
  - rewrite foldl_app. simpl. destruct IH as (self & -> & Hinv). simpl.
    by apply registry_inv_apply_op.
Qed.

End Registry.

Section Broadcaster.
Context {M : Type}.
Implicit Types (send : nat → WebSocket → M → bool) (self : Active) (t : string).

Lemma send_each_channels send i (snapshot : list WebSocket) (m : M) :
  (send_each send i snapshot m).*1 = snapshot.
Proof.
  revert i. induction snapshot as [|ws rest IH]; intros i; simpl; [done|].
  destruct (send i ws m); simpl; by rewrite IH.
Qed.

Lemma send_each_outcomes send i (snapshot : list WebSocket) (m : M) (j : nat) ws :
  snapshot !! j = Some ws →
  send_each send i snapshot m !! j = Some (ws, send (i + j) ws m).
Proof.
  revert i j. induction snapshot as [|w rest IH]; intros i j Hj; [done|].
  destruct j as [|j]; simpl in *.
  - injection Hj as ->. rewrite Nat.add_0_r. by destruct (send i ws m).
  - destruct (send i w m); simpl; rewrite (IH (S i) j Hj); do 3 f_equal; lia.
Qed.

Lemma broadcast_channels send t (m : M) self :
  (broadcast send t m self).*1 = get self t.
Proof. apply send_each_channels. Qed.

Lemma broadcast_length send t (m : M) self :
  length (broadcast send t m self) = length (get self t).
Proof. by rewrite <- (broadcast_channels send t m self), length_fmap. Qed.

End Broadcaster.

(** C4: the registry invariant (a topic is a key exactly when its list of
    channels is not empty) holds for a new manager, is kept by every
    [connect] and [disconnect], neither of which raises, hence holds after
    every history of them; and when the only channel of a topic
    disconnects, the topic is no longer a key. *)
Theorem registry_invariant_C4 :
  registry_inv init ∧
  (∀ (self : Active) (o : op), registry_inv self →
     ∃ self', apply_op self o = Some self' ∧ registry_inv self') ∧
  (∀ ops : list op, ∃ self, run ops = Some self ∧ registry_inv self) ∧
  (∀ (self : Active) (t : string) (ws : WebSocket), get self t = [ws] →
     ∃ self', disconnect t ws self = Some self' ∧ self' !! t = None).
Proof.
  split_and!.
  - apply registry_inv_init.
  - apply registry_inv_apply_op.
  - apply registry_inv_run.
  - intros self t ws Hget.
    destruct (disconnect_spec self t ws) as (self' & Hd & Hl & _ & Hkey).
    exists self'. split; [done|].
    rewrite Hget in Hl. simpl in Hl. rewrite decide_True in Hl by done.
    simpl in Hl. destruct (self' !! t) as [l|] eqn:Hlk; [|done].
    exfalso. apply Hkey; [by eexists|done].
Qed.

Lemma registry_invariant_C4_witness :
  get (connect true "p1" 7 init) "p1" = [7] ∧
  (∃ self', apply_op init (Connect true "p1" 7) = Some self' ∧ registry_inv self') ∧
  (∃ self', disconnect "p1" 7 (connect true "p1" 7 init) = Some self' ∧
            self' !! "p1" = None).
Proof.
  destruct registry_invariant_C4 as (Hinit & Hstep & _ & Hlast).
  split_and!.
  - reflexivity.
  - apply Hstep, Hinit.
  - apply Hlast. reflexivity.
Defined.

(** C6: after [N] distinct channels are registered under a topic that had
    none, a broadcast makes exactly [N] send attempts, one per channel; after
    one of them is unregistered the next broadcast makes [N - 1] attempts,
    none to that channel, and the topic's channel count is one less. *)
Theorem broadcast_attempts_C6 {M : Type} (send1 send2 : nat → WebSocket → M → bool)
    (m1 m2 : M) (self : Active) (t : string) (wss : list WebSocket) (ws : WebSocket) :
  NoDup wss → get self t = [] → ws ∈ wss →
  let reg := connect_all t wss self in
  ((broadcast send1 t m1 reg).*1 = wss) ∧
  length (broadcast send1 t m1 reg) = length wss ∧
  ∃ reg', disconnect t ws reg = Some reg' ∧
    S (length (broadcast send2 t m2 reg')) = length wss ∧
    (ws ∉ (broadcast send2 t m2 reg').*1) ∧
    S (length (get reg' t)) = length (get reg t).
Proof.
  intros Hnd Hempty Hin reg.
  assert (get reg t = wss) as Hreg.
  { unfold reg. by rewrite get_connect_all, Hempty. }
  split_and!.
  - by rewrite broadcast_channels.
  - by rewrite broadcast_length, Hreg.
  - destruct (disconnect_spec reg t ws) as (reg' & Hd & Hl & _).
    exists reg'. split; [done|].
    rewrite Hreg in Hl.
    destruct (list_remove_elem _ _ Hin) as [l' Hl']. rewrite Hl' in Hl. simpl in Hl.
    rewrite broadcast_length, broadcast_channels, Hl, Hreg.
    pose proof (list_remove_length _ _ _ Hl') as Hlen.
    split_and!; [lia| |lia].
    apply list_remove_split in Hl' as (l1 & l2 & -> & -> & Hn1).
    apply NoDup_app in Hnd as (_ & Hdisj & Hnd2).
    apply NoDup_cons in Hnd2 as [Hn2 _].
    rewrite elem_of_app. by intros [?|?].
Qed.

Lemma broadcast_attempts_C6_witness :
  let reg := connect_all "p1" [1; 2; 3] init in
  ((broadcast (λ _ w (_ : unit), bool_decide (w ≠ 2)) "p1" () reg).*1 = [1; 2; 3]) ∧
  length (broadcast (λ _ w (_ : unit), bool_decide (w ≠ 2)) "p1" () reg) = length [1; 2; 3] ∧
  ∃ reg', disconnect "p1" 2 reg = Some reg' ∧
    S (length (broadcast (λ _ _ (_ : unit), true) "p1" () reg')) = length [1; 2; 3] ∧
    (2 ∉ (broadcast (λ _ _ (_ : unit), true) "p1" () reg').*1) ∧
    S (length (get reg' "p1")) = length (get reg "p1").
Proof.
  apply (broadcast_attempts_C6 (λ _ w (_ : unit), bool_decide (w ≠ 2))
           (λ _ _ (_ : unit), true) () () init "p1" [1; 2; 3] 2).
  - by apply (bool_decide_unpack _).
  - reflexivity.
  - by apply (bool_decide_unpack _).
Defined.

(** C10: the registry does not deduplicate.  When a channel is registered
    [k > 1] times under a topic, one [disconnect] removes one registration:
    [k - 1] remain, the other channels keep theirs, and the next broadcast
    still sends to it, [k - 1] times.  A [disconnect] for a channel that is
    not registered under the topic (in particular for an unknown topic)
    returns without an exception and leaves the registry as it was. *)
Theorem disconnect_one_registration_C10 {M : Type} (send : nat → WebSocket → M → bool)
    (m : M) (self : Active) (t : string) (ws : WebSocket) (k : nat) :
  (registrations self t ws = k → 1 < k →
     ∃ self', disconnect t ws self = Some self' ∧
       S (registrations self' t ws) = k ∧
       (∀ ws', ws' ≠ ws → registrations self' t ws' = registrations self t ws') ∧
       (ws ∈ (broadcast send t m self').*1) ∧
       S (length (filter (ws =.) (broadcast send t m self').*1)) = k) ∧
  (registry_inv self → ws ∉ get self t → disconnect t ws self = Some self).
Proof.
  destruct (disconnect_spec self t ws) as (self' & Hd & Hl & Hother & Hkey).
  split.
  - intros Hk Hgt. exists self'. split; [done|].
    unfold registrations in *.
    assert (ws ∈ get self t) as Hin by (apply filter_eq_elem; lia).
    destruct (list_remove_elem _ _ Hin) as [l' Hl']. rewrite Hl' in Hl. simpl in Hl.
    pose proof (list_remove_filter_eq _ _ _ Hl') as Hcount.
    rewrite broadcast_channels, Hl.
    split_and!; [lia| |apply filter_eq_elem; lia|lia].
    intros ws' Hne. f_equal. symmetry. by apply (list_remove_filter_ne ws ws').
  - intros Hinv Hnot. rewrite Hd. f_equal.
    rewrite (list_remove_not_elem _ _ Hnot) in Hl. simpl in Hl.
    apply map_eq. intros t'. destruct (decide (t' = t)) as [->|Hne]; [|by apply Hother].
    destruct (self !! t) as [l|] eqn:Hlk.
    + rewrite (get_lookup_Some _ _ _ Hlk) in Hl.
      pose proof (proj1 (registry_inv_alt self) Hinv t) as Hne.
      rewrite <- Hl. apply get_nonempty_lookup. rewrite Hl. congruence.
    + destruct (self' !! t) as [l'|] eqn:Hlk'; [|done].
      exfalso. apply Hkey; [by eexists|].
      rewrite Hl. unfold get. by rewrite Hlk.
Qed.

Lemma disconnect_one_registration_C10_witness :
  let self := connect_all "p1" [5; 6; 5] init in
  (∃ self', disconnect "p1" 5 self = Some self' ∧
     S (registrations self' "p1" 5) = 2 ∧
     (∀ ws', ws' ≠ 5 → registrations self' "p1" ws' = registrations self "p1" ws') ∧
     (5 ∈ (broadcast (λ _ _ (_ : unit), false) "p1" () self').*1) ∧
     S (length (filter (5 =.) (broadcast (λ _ _ (_ : unit), false) "p1" () self').*1)) = 2) ∧
  disconnect "p2" 5 self = Some self ∧
  disconnect "p1" 9 self = Some self.
Proof.
  intros self.
  assert (registry_inv self) as Hinv.
  { destruct (registry_inv_run [Connect true "p1" 5; Connect true "p1" 6;
                                Connect true "p1" 5]) as (s & Hs & Hinv).
    injection Hs as <-. exact Hinv. }
  split_and!.
  - apply (disconnect_one_registration_C10 (λ _ _ (_ : unit), false) () self "p1" 5 2);
      [reflexivity|lia].
  - apply (disconnect_one_registration_C10 (λ _ _ (_ : unit), false) () self "p2" 5 0);
      [exact Hinv|]. vm_compute. apply not_elem_of_nil.
  - apply (disconnect_one_registration_C10 (λ _ _ (_ : unit), false) () self "p1" 9 0);
      [exact Hinv|]. by apply (bool_decide_unpack _).
Defined.

(** ** Properties of the vote handler *)

Section VoteHandler.
Context {OID : Type} `{Countable OID}.
Variable ObjectId : string → option OID.
Implicit Types (w : World OID) (now : datetime) (vote : VoteIn.t)
  (send : nat → WebSocket → Message → bool) (product : Product.t).

(** The three ways [cast_vote] goes for a product that is found. *)
Lemma cast_vote_not_active now send pid vote w _id product :
  ObjectId pid = Some _id → db_product w !! _id = Some product →
  Product.status product ≠ Some "in_voting" →
  cast_vote ObjectId now send pid vote w
  = (w, Raise (HTTPException 400 "Voting not active"), []).
Proof.
  intros Hid Hdoc Hst. unfold cast_vote, get_documents. rewrite Hid, Hdoc. simpl.
  by rewrite bool_decide_eq_false_2.
Qed.

Lemma cast_vote_invalid_option now send pid vote w _id product :
  ObjectId pid = Some _id → db_product w !! _id = Some product →
  Product.status product = Some "in_voting" →
  default ∅ (Product.counts product) !! option_key (VoteIn.option vote) = None →
  cast_vote ObjectId now send pid vote w
  = (w, Raise (HTTPException 400 "Invalid option"), []).
Proof.
  intros Hid Hdoc Hst Hkey. unfold cast_vote, get_documents. rewrite Hid, Hdoc. simpl.
  rewrite bool_decide_eq_true_2 by done. simpl.
  rewrite bool_decide_eq_false_2; [done|]. rewrite Hkey. by intros [??].
Qed.

Lemma cast_vote_counted now send pid vote w _id product n :
  ObjectId pid = Some _id → db_product w !! _id = Some product →
  Product.status product = Some "in_voting" →
  default ∅ (Product.counts product) !! option_key (VoteIn.option vote) = Some n →
  let counts :=
    <[option_key (VoteIn.option vote) := (n + 1)%Z]> (default ∅ (Product.counts product)) in
  let message := mk_message "votes.update" pid counts now in
  cast_vote ObjectId now send pid vote w
  = (mk_world (<[_id := Product.set_counts counts product]> (db_product w)) (manager w),
     Return (mk_response true counts),
     [mk_call pid message (broadcast send pid message (manager w))]).
Proof.
  intros Hid Hdoc Hst Hkey counts message.
  unfold cast_vote, get_documents, update_one. rewrite Hid, Hdoc. simpl.
  rewrite bool_decide_eq_true_2 by done. simpl.
  rewrite bool_decide_eq_true_2 by (by rewrite Hkey). simpl.
  rewrite Hkey. simpl. do 3 f_equal.
  apply map_eq. intros i. rewrite lookup_alter, lookup_insert.
  case_decide as Hi; [subst i|done]. by rewrite Hdoc.
Qed.

(** C1: on a product that is [in_voting], a vote whose option is a key of
    the product's counts succeeds: the returned counts have that option's
    tally one higher and every other key as before, and they are what the
    store then holds for the product; the rest of the document, the other
    documents and the registry are untouched. *)
Theorem cast_vote_increments_C1 now send pid vote w _id product
    (counts : gmap string Z) (n : Z) :
  ObjectId pid = Some _id → db_product w !! _id = Some product →
  Product.status product = Some "in_voting" →
  Product.counts product = Some counts →
  counts !! option_key (VoteIn.option vote) = Some n →
  ∃ w' counts' calls,
    cast_vote ObjectId now send pid vote w
    = (w', Return (mk_response true counts'), calls) ∧
    counts' !! option_key (VoteIn.option vote) = Some (n + 1)%Z ∧
    (∀ k, k ≠ option_key (VoteIn.option vote) → counts' !! k = counts !! k) ∧
    db_product w' !! _id = Some (Product.set_counts counts' product) ∧
    (∀ i, i ≠ _id → db_product w' !! i = db_product w !! i) ∧
    manager w' = manager w.
Proof.
  intros Hid Hdoc Hst Hc Hkey.
  eexists _, _, _. split.
  - apply (cast_vote_counted now send pid vote w _id product n); try done.
    by rewrite Hc.
  - rewrite Hc. simpl. split_and!.
    + by rewrite lookup_insert_eq.
    + intros k Hk. by rewrite lookup_insert_ne.
    + by rewrite lookup_insert_eq.
    + intros i Hi. by rewrite lookup_insert_ne.
    + done.
Qed.

(** C2: on a product whose status is anything but [in_voting] (a missing
    status included; in particular each of the other statuses of the schema)
    [cast_vote] raises [HTTPException(400, "Voting not active")], and the
    store and the registry are as before, with no broadcast made. *)
Theorem cast_vote_not_in_voting_C2 now send pid vote w _id product :
  ObjectId pid = Some _id → db_product w !! _id = Some product →
  (Product.status product ≠ Some "in_voting" →
   cast_vote ObjectId now send pid vote w
   = (w, Raise (HTTPException 400 "Voting not active"), [])) ∧
  (∀ s : string,
     s ∈ ["draft"; "vote_expired"; "auction"; "buy_now"; "tokenization";
          "raffle"; "sold"; "rejected"] →
     Product.status product = Some s →
     cast_vote ObjectId now send pid vote w
     = (w, Raise (HTTPException 400 "Voting not active"), [])).
Proof.
  intros Hid Hdoc. split.
  - by apply (cast_vote_not_active now send pid vote w _id product).
  - intros s Hs Hst. apply (cast_vote_not_active now send pid vote w _id product); try done.
    rewrite Hst. intros [= ->].
    revert Hs. by apply (bool_decide_unpack (_ ∉ _)).
Qed.

(** C3, with the order of the two checks made explicit: when the vote's
    option is not a key of the product's counts (a product without counts
    has none), [cast_vote] raises a 400 error and leaves the store and the
    registry as they were, with no broadcast made; the error is
    [HTTPException(400, "Invalid option")] when the product is [in_voting],
    and the earlier status check's [HTTPException(400, "Voting not active")]
    otherwise. *)
Theorem cast_vote_unknown_option_C3 now send pid vote w _id product :
  ObjectId pid = Some _id → db_product w !! _id = Some product →
  default ∅ (Product.counts product) !! option_key (VoteIn.option vote) = None →
  (Product.status product = Some "in_voting" →
   cast_vote ObjectId now send pid vote w
   = (w, Raise (HTTPException 400 "Invalid option"), [])) ∧
  (Product.status product ≠ Some "in_voting" →
   cast_vote ObjectId now send pid vote w
   = (w, Raise (HTTPException 400 "Voting not active"), [])).
Proof.
  intros Hid Hdoc Hkey. split; intros Hst.
  - by apply (cast_vote_invalid_option now send pid vote w _id product).
  - by apply (cast_vote_not_active now send pid vote w _id product).
Qed.

(** C9: two valid vote requests with the same option, whatever their
    [desired_shares] and [desired_tickets], get the same response from
    [cast_vote] on the same world, leave the same world behind and cause
    the same broadcast with the same message. *)
Theorem cast_vote_ignores_hints_C9 now send pid (v1 v2 : VoteIn.t) w :
  VoteIn.valid v1 = true → VoteIn.valid v2 = true →
  VoteIn.option v1 = VoteIn.option v2 →
  cast_vote ObjectId now send pid v1 w = cast_vote ObjectId now send pid v2 w.
Proof.
  intros _ _ Hopt. unfold cast_vote. by rewrite Hopt.
Qed.

Lemma counts_le_refl (c : gmap string Z) : counts_le c c.
Proof. intros k n Hk. exists n. split; [done|lia]. Qed.

Lemma counts_le_trans (c1 c2 c3 : gmap string Z) :
  counts_le c1 c2 → counts_le c2 c3 → counts_le c1 c3.
Proof.
  intros H12 H23 k n1 Hk. destruct (H12 k n1 Hk) as (n2 & Hk2 & Hle).
  destruct (H23 k n2 Hk2) as (n3 & Hk3 & Hle'). exists n3. split; [done|lia].
Qed.

Lemma counts_le_incr (c : gmap string Z) (key : string) (n : Z) :
  c !! key = Some n → counts_le c (<[key := (n + 1)%Z]> c).
Proof.
  intros Hkey k n1 Hk. destruct (decide (k = key)) as [->|Hne].
  - rewrite lookup_insert_eq. exists (n + 1)%Z. split; [done|].
    rewrite Hkey in Hk. injection Hk as <-. lia.
  - rewrite lookup_insert_ne by done. exists n1. split; [done|lia].
Qed.

(** One [cast_vote] either broadcasts nothing and changes nothing, or
    broadcasts once, counts that are at least the stored ones and are the
    stored ones afterwards. *)
Lemma cast_vote_step now send pid vote w :
  let r := cast_vote ObjectId now send pid vote w in
  (r.2 = [] ∧ r.1.1 = w) ∨
  (∃ b, r.2 = [b] ∧ call_topic b = pid ∧
        counts_le (stored_counts ObjectId pid w) (msg_counts (call_message b)) ∧
        stored_counts ObjectId pid r.1.1 = msg_counts (call_message b)).
Proof.
  destruct (ObjectId pid) as [_id|] eqn:Hid;
    [|left; unfold cast_vote; by rewrite Hid].
  destruct (db_product w !! _id) as [product|] eqn:Hdoc;
    [|left; unfold cast_vote, get_documents; by rewrite Hid, Hdoc].
  destruct (decide (Product.status product = Some "in_voting")) as [Hst|Hst];
    [|left; by rewrite (cast_vote_not_active now send pid vote w _id product)].
  destruct (default ∅ (Product.counts product) !! option_key (VoteIn.option vote))
    as [n|] eqn:Hkey;
    [|left; by rewrite (cast_vote_invalid_option now send pid vote w _id product)].
  right. rewrite (cast_vote_counted now send pid vote w _id product n) by done.
  eexists. split; [done|]. simpl. split_and!; [done| |].
  - unfold stored_counts. rewrite Hid, Hdoc. by apply counts_le_incr.
  - unfold stored_counts. simpl. by rewrite Hid, lookup_insert_eq.
Qed.

Lemma cast_votes_monotone pid calls w :
  let bs := (cast_votes ObjectId pid calls w).2 in
  Forall (counts_le (stored_counts ObjectId pid w)) (broadcast_counts bs) ∧
  StronglySorted counts_le (broadcast_counts bs) ∧
  Forall (λ b, call_topic b = pid) bs.
Proof.
  revert w. induction calls as [|[[now send] vote] rest IH]; intros w; simpl.
  - split_and!; constructor.
  - pose proof (cast_vote_step now send pid vote w) as Hstep. simpl in Hstep.
    destruct (cast_vote ObjectId now send pid vote w) as [[w1 r] bs1].
    specialize (IH w1).
    destruct (cast_votes ObjectId pid rest w1) as [[w2 rs] bs2].
    simpl in *. destruct IH as (Hall & Hsorted & Htopic).
    destruct Hstep as [[-> ->]|(b & -> & Hb & Hle & Hcur)]; simpl; [done|].
    rewrite Hcur in Hall. split_and!.
    + constructor; [done|]. eapply Forall_impl; [exact Hall|].
      intros c Hc. by eapply counts_le_trans.
    + by constructor.
    + by constructor.
Qed.

(** C7: in any run of [cast_vote] calls on one product, the counts carried
    by the broadcast calls, in order, never decrease for any option, and
    every call is for that product's topic.  Two votes for [raffle] on an
    [in_voting] product whose raffle tally is [n] both succeed, with the
    tally at [n + 1] and then [n + 2] in the two responses and in the two
    broadcast messages; the store ends with [n + 2], and every other tally
    is as it was. *)
Theorem broadcast_counts_monotone_C7 pid
    (calls : list (datetime * (nat → WebSocket → Message → bool) * VoteIn.t)) w :
  (StronglySorted counts_le (broadcast_counts (cast_votes ObjectId pid calls w).2) ∧
   Forall (λ b, call_topic b = pid) (cast_votes ObjectId pid calls w).2) ∧
  (∀ _id product (counts : gmap string Z) (n : Z) now1 send1 v1 now2 send2 v2,
     ObjectId pid = Some _id → db_product w !! _id = Some product →
     Product.status product = Some "in_voting" →
     Product.counts product = Some counts →
     counts !! "raffle" = Some n →
     VoteIn.option v1 = raffle → VoteIn.option v2 = raffle →
     let c1 := <["raffle" := (n + 1)%Z]> counts in
     let c2 := <["raffle" := (n + 2)%Z]> counts in
     let m1 := mk_message "votes.update" pid c1 now1 in
     let m2 := mk_message "votes.update" pid c2 now2 in
     ∃ w',
       cast_votes ObjectId pid [(now1, send1, v1); (now2, send2, v2)] w
       = (w',
          [Return (mk_response true c1); Return (mk_response true c2)],
          [mk_call pid m1 (broadcast send1 pid m1 (manager w));
           mk_call pid m2 (broadcast send2 pid m2 (manager w))]) ∧
       db_product w' !! _id = Some (Product.set_counts c2 product) ∧
       c2 !! "raffle" = Some (n + 2)%Z ∧
       (∀ k, k ≠ "raffle" → c2 !! k = counts !! k)).
Proof.
  split.
  - destruct (cast_votes_monotone pid calls w) as (_ & Hsorted & Htopic). done.
  - intros _id product counts n now1 send1 v1 now2 send2 v2
      Hid Hdoc Hst Hc Hraffle Hv1 Hv2 c1 c2 m1 m2.
    assert (<["raffle" := (n + 1 + 1)%Z]> c1 = c2) as Hc2.
    { unfold c1, c2. rewrite insert_insert_eq. f_equal. lia. }
    pose (w1 := mk_world (<[_id := Product.set_counts c1 product]> (db_product w))
                  (manager w)).
    assert (cast_vote ObjectId now1 send1 pid v1 w
            = (w1, Return (mk_response true c1),
               [mk_call pid m1 (broadcast send1 pid m1 (manager w))])) as E1.
    { rewrite (cast_vote_counted now1 send1 pid v1 w _id product n);
        [|done|done|done|by rewrite Hc, Hv1].
      by rewrite Hc, Hv1. }
    assert (cast_vote ObjectId now2 send2 pid v2 w1
            = (mk_world (<[_id := Product.set_counts c2 product]> (db_product w1))
                 (manager w),
               Return (mk_response true c2),
               [mk_call pid m2 (broadcast send2 pid m2 (manager w))])) as E2.
    { rewrite (cast_vote_counted now2 send2 pid v2 w1 _id
                 (Product.set_counts c1 product) (n + 1)%Z);
        [|done|apply lookup_insert_eq|done|rewrite Hv2; apply lookup_insert_eq].
      rewrite Hv2. change (default ∅ (Product.counts (Product.set_counts c1 product)))
        with c1. change (option_key raffle) with "raffle". by rewrite Hc2. }
    cbn [cast_votes]. rewrite E1, E2.
    eexists. split; [reflexivity|]. cbn [db_product w1].
    split_and!.
    + by rewrite lookup_insert_eq.
    + apply lookup_insert_eq.
    + intros k Hk. unfold c2. by rewrite lookup_insert_ne.
Qed.

(** C5: a send that raises is passed over.  When the [j]-th send of a
    broadcast fails, the attempts made are still one per channel of the
    snapshot, in order, the failed one among them; and what [cast_vote]
    returns and the world it leaves do not depend on how the sends of its
    broadcast fare, nor do the channels that the broadcast tries. *)
Theorem broadcast_failure_isolated_C5 {M : Type} (sendM : nat → WebSocket → M → bool)
    (t : string) (m : M) (self : Active) (j : nat) (ws : WebSocket)
    now send1 send2 pid vote w :
  (get self t !! j = Some ws → sendM j ws m = false →
   (broadcast sendM t m self).*1 = get self t ∧
   broadcast sendM t m self !! j = Some (ws, false)) ∧
  (cast_vote ObjectId now send1 pid vote w).1
  = (cast_vote ObjectId now send2 pid vote w).1 ∧
  (∀ b, b ∈ (cast_vote ObjectId now send1 pid vote w).2 →
        (call_attempts b).*1 = get (manager w) pid).
Proof.
  split_and!.
  - intros Hj Hfail. split; [apply broadcast_channels|].
    unfold broadcast. rewrite (send_each_outcomes sendM 0 _ m j ws Hj).
    simpl. by rewrite Hfail.
  - unfold cast_vote.
    destruct (ObjectId pid) as [_id|]; [|done].
    destruct (get_documents (db_product w) _id 1) as [|product ?]; [done|].
    destruct (negb (bool_decide (Product.status product = Some "in_voting"))); [done|].
    by destruct (negb (bool_decide (is_Some _))).
  - intros b Hb. unfold cast_vote in Hb.
    destruct (ObjectId pid) as [_id|]; [|by apply elem_of_nil in Hb].
    destruct (get_documents (db_product w) _id 1) as [|product ?];
      [by apply elem_of_nil in Hb|].
    destruct (negb (bool_decide (Product.status product = Some "in_voting")));
      [by apply elem_of_nil in Hb|].
    destruct (negb (bool_decide (is_Some _))); [by apply elem_of_nil in Hb|].
    simpl in Hb. apply list_elem_of_singleton in Hb as ->. simpl.
    apply broadcast_channels.
Qed.

End VoteHandler.

(** ** Properties of product creation *)

Lemma zero_counts_lookup (k : string) :
  zero_counts !! k
  = if decide (k ∈ option_key <$> all_options) then Some 0%Z else None.
Proof.
  unfold zero_counts.
  repeat (rewrite lookup_insert; case_decide; [subst k; reflexivity|]).
  rewrite lookup_empty, decide_False; [done|].
  simpl. rewrite !not_elem_of_cons. split_and!; try congruence. apply not_elem_of_nil.
Qed.

Lemma DEFAULT_WINDOW_HOURS_unset (getenv : string → option string) :
  getenv "VOTE_WINDOW_HOURS" = None → DEFAULT_WINDOW_HOURS getenv = Some 72%Z.
Proof. intros Hunset. unfold DEFAULT_WINDOW_HOURS. by rewrite Hunset. Qed.

Section CreateProduct.
Context {OID : Type} `{Countable OID}.
Variable id_str : OID → string.
Variable new_id : gmap OID Product.t → OID.

(** C8: with [VOTE_WINDOW_HOURS] not set the window is 72 hours, and a
    request without [vote_start_at], served while the clock reads a valid
    datetime at least three days before the last representable day, gets a
    document whose status is [in_voting], whose [vote_start_at] is the clock
    reading, whose [vote_end_at] is 72 hours after it, and whose counts are
    zero for exactly the five options; that document is what is stored
    under the new identifier. *)
Theorem create_product_defaults_C8 (getenv : string → option string)
    (now : datetime) (payload : ProductIn.t) (w : World OID) :
  getenv "VOTE_WINDOW_HOURS" = None →
  ProductIn.vote_start_at payload = None →
  datetime_ok now = true →
  (wall now / DAY + 3 ≤ MAXORDINAL)%Z →
  DEFAULT_WINDOW_HOURS getenv = Some 72%Z ∧
  ∃ w' pid doc,
    create_product id_str new_id 72 now payload w = (w', Return (pid, doc)) ∧
    Product.status doc = Some "in_voting" ∧
    Product.vote_start_at doc = now ∧
    Product.vote_end_at doc
    = mk_datetime (wall now + 72 * 3600 * 1000000) (tzinfo now) ∧
    Product.counts doc = Some zero_counts ∧
    (∀ k, zero_counts !! k
          = if decide (k ∈ option_key <$> all_options) then Some 0%Z else None) ∧
    pid = id_str (new_id (db_product w)) ∧
    db_product w' !! new_id (db_product w) = Some doc ∧
    manager w' = manager w.
Proof.
  intros Hunset Hstart Hnow Hroom.
  split; [by apply DEFAULT_WINDOW_HOURS_unset|].
  unfold create_product. rewrite Hstart.
  change (timedelta_hours 72) with (@Return Z (3 * DAY)%Z).
  cbn [default]. unfold datetime_add.
  assert (datetime_ok (mk_datetime (wall now + 3 * DAY) (tzinfo now)) = true) as ->.
  { unfold datetime_ok in *. cbn [wall].
    rewrite Z.div_add by done.
    apply andb_true_iff in Hnow as [Hlo Hhi].
    apply andb_true_iff. split; [apply Z.ltb_lt|apply Z.leb_le].
    - apply Z.ltb_lt in Hlo. lia.
    - lia. }
  unfold create_document.
  eexists _, _, _. split; [reflexivity|]. cbn.
  split_and!; try done.
  - apply zero_counts_lookup.
  - apply lookup_insert_eq.
Qed.

End CreateProduct.

(** ** The theorems at work in the concrete setting *)

Lemma cast_vote_increments_C1_witness :
  ∃ w' counts' calls,
    cast_vote Demo.ObjectId Demo.now Demo.second_fails Demo.pid
      (Demo.vote raffle) Demo.world
    = (w', Return (mk_response true counts'), calls) ∧
    counts' !! "raffle" = Some 1%Z ∧
    (∀ k, k ≠ "raffle" → counts' !! k = zero_counts !! k) ∧
    db_product w' !! Demo.pid = Some (Product.set_counts counts' Demo.product) ∧
    (∀ i, i ≠ Demo.pid → db_product w' !! i = db_product Demo.world !! i) ∧
    manager w' = manager Demo.world.
Proof.
  apply (cast_vote_increments_C1 Demo.ObjectId Demo.now Demo.second_fails Demo.pid
           (Demo.vote raffle) Demo.world Demo.pid Demo.product zero_counts 0%Z);
    reflexivity.
Defined.

Lemma cast_vote_not_in_voting_C2_witness :
  cast_vote Demo.ObjectId Demo.now Demo.all_delivered Demo.pid (Demo.vote auction)
    (Demo.world_of (Demo.stored "sold" zero_counts))
  = (Demo.world_of (Demo.stored "sold" zero_counts),
     Raise (HTTPException 400 "Voting not active"), []).
Proof.
  apply (cast_vote_not_in_voting_C2 Demo.ObjectId Demo.now Demo.all_delivered Demo.pid
           (Demo.vote auction) (Demo.world_of (Demo.stored "sold" zero_counts))
           Demo.pid (Demo.stored "sold" zero_counts));
    [reflexivity|reflexivity|discriminate].
Defined.

(** The option check is not reached when the status check fails: for a
    [draft] product whose counts lack [raffle], a vote for [raffle] gets the
    status check's error, which is not ["Invalid option"]. *)
Lemma cast_vote_unknown_option_C3_counterexample :
  Demo.partial_counts !! option_key raffle = None ∧
  cast_vote Demo.ObjectId Demo.now Demo.all_delivered Demo.pid (Demo.vote raffle)
    (Demo.world_of (Demo.stored "draft" Demo.partial_counts))
  = (Demo.world_of (Demo.stored "draft" Demo.partial_counts),
     Raise (HTTPException 400 "Voting not active"), []) ∧
  HTTPException 400 "Voting not active" ≠ HTTPException 400 "Invalid option".
Proof. split_and!; [reflexivity|reflexivity|discriminate]. Qed.

Lemma cast_vote_unknown_option_C3_witness :
  cast_vote Demo.ObjectId Demo.now Demo.all_delivered Demo.pid (Demo.vote raffle)
    (Demo.world_of (Demo.stored "in_voting" Demo.partial_counts))
  = (Demo.world_of (Demo.stored "in_voting" Demo.partial_counts),
     Raise (HTTPException 400 "Invalid option"), []).
Proof.
  apply (cast_vote_unknown_option_C3 Demo.ObjectId Demo.now Demo.all_delivered Demo.pid
           (Demo.vote raffle) (Demo.world_of (Demo.stored "in_voting" Demo.partial_counts))
           Demo.pid (Demo.stored "in_voting" Demo.partial_counts));
    reflexivity.
Defined.

Lemma broadcast_failure_isolated_C5_witness :
  let m := mk_message "votes.update" Demo.pid zero_counts Demo.now in
  (broadcast Demo.second_fails Demo.pid m (manager Demo.world)).*1 = [1; 2; 3] ∧
  broadcast Demo.second_fails Demo.pid m (manager Demo.world) !! 1 = Some (2, false) ∧
  (cast_vote Demo.ObjectId Demo.now Demo.second_fails Demo.pid (Demo.vote raffle)
     Demo.world).1
  = (cast_vote Demo.ObjectId Demo.now Demo.all_delivered Demo.pid (Demo.vote raffle)
       Demo.world).1.
Proof.
  intros m.
  destruct (broadcast_failure_isolated_C5 Demo.ObjectId Demo.second_fails Demo.pid m
              (manager Demo.world) 1 2 Demo.now Demo.second_fails Demo.all_delivered
              Demo.pid (Demo.vote raffle) Demo.world) as (Hloop & Hsame & _).
  destruct Hloop as [Hall Hfailed]; [reflexivity|reflexivity|].
  split_and!; [exact Hall|exact Hfailed|exact Hsame].
Defined.

Lemma broadcast_counts_monotone_C7_witness :
  create_product Demo.id_str Demo.new_id 72 Demo.now Demo.payload
    (mk_world ∅ (manager Demo.world))
  = (Demo.world, Return (Demo.pid, Demo.product)) ∧
  ∃ w',
    cast_votes Demo.ObjectId Demo.pid
      [(Demo.now, Demo.second_fails, Demo.vote raffle);
       (Demo.now, Demo.all_delivered, Demo.vote raffle)] Demo.world
    = (w',
       [Return (mk_response true (<["raffle" := 1%Z]> zero_counts));
        Return (mk_response true (<["raffle" := 2%Z]> zero_counts))],
       [mk_call Demo.pid
          (mk_message "votes.update" Demo.pid (<["raffle" := 1%Z]> zero_counts) Demo.now)
          [(1, true); (2, false); (3, true)];
        mk_call Demo.pid
          (mk_message "votes.update" Demo.pid (<["raffle" := 2%Z]> zero_counts) Demo.now)
          [(1, true); (2, true); (3, true)]]) ∧
    db_product w' !! Demo.pid
    = Some (Product.set_counts (<["raffle" := 2%Z]> zero_counts) Demo.product).
Proof.
  split; [reflexivity|].
  destruct (broadcast_counts_monotone_C7 Demo.ObjectId Demo.pid [] Demo.world)
    as [_ Hscenario].
  destruct (Hscenario Demo.pid Demo.product zero_counts 0%Z
              Demo.now Demo.second_fails (Demo.vote raffle)
              Demo.now Demo.all_delivered (Demo.vote raffle)
              eq_refl eq_refl eq_refl eq_refl eq_refl eq_refl eq_refl)
    as (w' & Hrun & Hdb & _).
  exists w'. split; [exact Hrun|exact Hdb].
Defined.

Lemma create_product_defaults_C8_witness :
  DEFAULT_WINDOW_HOURS Demo.getenv = Some 72%Z ∧
  ∃ w' pid doc,
    create_product Demo.id_str Demo.new_id 72 Demo.now Demo.payload
      (mk_world ∅ init)
    = (w', Return (pid, doc)) ∧
    Product.status doc = Some "in_voting" ∧
    Product.vote_start_at doc = Demo.now ∧
    Product.vote_end_at doc = mk_datetime (738889 * DAY) (Some 0%Z) ∧
    Product.counts doc = Some zero_counts.
Proof.
  destruct (create_product_defaults_C8 Demo.id_str Demo.new_id Demo.getenv Demo.now
              Demo.payload (mk_world ∅ init))
    as (Hwindow & w' & pid & doc & Hrun & Hstatus & Hstart & Hend & Hcounts & _).
  - reflexivity.
  - reflexivity.
  - reflexivity.
  - vm_compute. discriminate.
  - split; [exact Hwindow|]. exists w', pid, doc.
    split_and!; [exact Hrun|exact Hstatus|exact Hstart|exact Hend|exact Hcounts].
Defined.

Lemma cast_vote_ignores_hints_C9_witness :
  cast_vote Demo.ObjectId Demo.now Demo.second_fails Demo.pid
    (VoteIn.mk tokenization (Some 5%Z) None) Demo.world
  = cast_vote Demo.ObjectId Demo.now Demo.second_fails Demo.pid
      (VoteIn.mk tokenization None (Some 2%Z)) Demo.world.
Proof.
  apply (cast_vote_ignores_hints_C9 Demo.ObjectId Demo.now Demo.second_fails Demo.pid
           (VoteIn.mk tokenization (Some 5%Z) None)
           (VoteIn.mk tokenization None (Some 2%Z)) Demo.world);
    reflexivity.
Defined.

(** ** Websocket sessions and the registry *)

Section Sessions.
Implicit Types (self : Active) (t : string) (ws : WebSocket).

Lemma list_remove_app {A : Type} `{EqDecision A} (x : A) (l1 l2 : list A) :
  list_remove x (l1 ++ l2)
  = match list_remove x l1 with
    | Some l1' => Some (l1' ++ l2)
    | None => (l1 ++.) <$> list_remove x l2
    end.
Proof.
  induction l1 as [|y l1 IH]; simpl.
  - by destruct (list_remove x l2).
  - destruct (decide (x = y)); [done|]. rewrite IH.
    destruct (list_remove x l1); [done|]. by destruct (list_remove x l2).
Qed.

Lemma list_remove_subseteq {A : Type} `{EqDecision A} (x : A) (l l' : list A) :
  list_remove x l = Some l' → l' ⊆ l.
Proof.
  intros (l1 & l2 & -> & -> & _)%list_remove_split y.
  rewrite !elem_of_app, elem_of_cons. tauto.
Qed.

Lemma registry_inv_lookup self t :
  registry_inv self →
  self !! t = if decide (get self t = []) then None else Some (get self t).
Proof.
  intros Hinv. pose proof (proj1 (registry_inv_alt self) Hinv t) as Hne.
  unfold get. destruct (self !! t) as [l|]; simpl; [|done].
  rewrite decide_False; [done|congruence].
Qed.

Lemma registry_inv_eq self1 self2 :
  registry_inv self1 → registry_inv self2 →
  (∀ t, get self1 t = get self2 t) → self1 = self2.
Proof.
  intros H1 H2 Hget. apply map_eq. intros t.
  by rewrite (registry_inv_lookup self1 t H1), (registry_inv_lookup self2 t H2), Hget.
Qed.

Lemma get_disconnect_ne self self' t t' ws :
  disconnect t' ws self = Some self' → t ≠ t' → self' !! t = self !! t.
Proof.
  intros Hd Hne. destruct (disconnect_spec self t' ws) as (s & Hs & _ & Hother & _).
  rewrite Hd in Hs. injection Hs as <-. by apply Hother.
Qed.

Lemma ws_receive_loop_texts received exit t ws self :
  ws_receive_loop received exit t ws self = ws_receive_loop [] exit t ws self.
Proof. induction received as [|text rest IH]; [done|]. exact IH. Qed.

(** X1: registrations under one product are out of reach of what happens
    under another: a [connect] or a [disconnect] for [t'] leaves the list of
    every other topic [t], and so the attempts of a broadcast to [t], as
    they were. *)
Theorem registry_topics_independent {M : Type} (send : nat → WebSocket → M → bool)
    (m : M) self t t' ws (accepted : bool) :
  t ≠ t' →
  connect accepted t' ws self !! t = self !! t ∧
  broadcast send t m (connect accepted t' ws self) = broadcast send t m self ∧
  ∃ self', disconnect t' ws self = Some self' ∧
    self' !! t = self !! t ∧
    broadcast send t m self' = broadcast send t m self.
Proof.
  intros Hne.
  assert (connect accepted t' ws self !! t = self !! t) as Hc.
  { unfold connect. destruct accepted; [|done]. by rewrite lookup_insert_ne. }
  split_and!; [done| |].
  - unfold broadcast, get. by rewrite Hc.
  - destruct (disconnect_spec self t' ws) as (self' & Hd & _ & Hother & _).
    exists self'. split; [done|].
    assert (self' !! t = self !! t) as Hl by by apply Hother.
    split; [done|]. unfold broadcast, get. by rewrite Hl.
Qed.

(** X2: a session that is accepted and ends with [WebSocketDisconnect],
    with nothing else happening to the registry meanwhile, never raises and
    leaves the topic with the channels it had, up to their order, and the
    other topics as they were; when the websocket was not registered under the
    topic before, on a registry that satisfies the invariant, the registry
    is back exactly as it was, whatever texts were received. *)
Theorem ws_product_session_round_trip (received : list string) self t ws :
  (∃ self', ws_product true received WebSocketDisconnect t ws self = Some self' ∧
     get self' t ≡ₚ get self t ∧
     (∀ t', t' ≠ t → self' !! t' = self !! t')) ∧
  (registry_inv self → ws ∉ get self t →
   ws_product true received WebSocketDisconnect t ws self = Some self).
Proof.
  unfold ws_product. rewrite ws_receive_loop_texts. cbn [ws_receive_loop].
  destruct (disconnect_spec (connect true t ws self) t ws)
    as (self' & Hd & Hl & Hother & Hkey).
  rewrite get_connect in Hl.
  assert (∀ t', t' ≠ t → self' !! t' = self !! t') as Hframe.
  { intros t' Hne. rewrite (Hother t' Hne). unfold connect.
    by rewrite lookup_insert_ne. }
  split.
  - exists self'. split_and!; [done| |done].
    rewrite Hl, list_remove_app.
    destruct (list_remove ws (get self t)) as [l'|] eqn:Hr; simpl.
    + apply list_remove_split in Hr as (l1 & l2 & -> & -> & _).
      rewrite <- !app_assoc. simpl. apply Permutation_app_head.
      rewrite (Permutation_app_comm l2 [ws]). done.
    + rewrite decide_True by done. simpl. by rewrite app_nil_r.
  - intros Hinv Hnot. rewrite Hd. f_equal.
    rewrite list_remove_app, (list_remove_not_elem _ _ Hnot) in Hl. simpl in Hl.
    rewrite decide_True in Hl by done. simpl in Hl. rewrite app_nil_r in Hl.
    apply map_eq. intros t'. destruct (decide (t' = t)) as [->|Hne]; [|by apply Hframe].
    rewrite (registry_inv_lookup self t Hinv). case_decide as Hnil.
    + destruct (self' !! t) as [l|] eqn:Hlk; [|done].
      exfalso. apply Hkey; [by eexists|]. by rewrite Hl.
    + rewrite <- Hl. apply get_nonempty_lookup. by rewrite Hl.
Qed.

Lemma ws_product_session_round_trip_witness :
  ws_product true ["ping"; "ping"] WebSocketDisconnect "p1" 4
    (connect_all "p1" [1; 2; 3] init)
  = Some (connect_all "p1" [1; 2; 3] init).
Proof.
  apply (ws_product_session_round_trip ["ping"; "ping"]
           (connect_all "p1" [1; 2; 3] init) "p1" 4).
  - destruct (registry_inv_run [Connect true "p1" 1; Connect true "p1" 2;
                                Connect true "p1" 3]) as (s & Hs & Hinv).
    injection Hs as <-. exact Hinv.
  - by apply (bool_decide_unpack _).
Defined.

(** X3: [ws_product] unregisters on [WebSocketDisconnect] only.  A session
    that is accepted and whose receive loop ends with any other exception
    leaves the websocket registered, once more than before, and every later
    broadcast to the topic still makes an attempt for it; a session whose
    [accept] raises leaves the registry as it was. *)
Theorem ws_product_other_exception_stays {M : Type} (send : nat → WebSocket → M → bool)
    (m : M) (received : list string) self t ws :
  (∃ self', ws_product true received OtherException t ws self = Some self' ∧
     registrations self' t ws = S (registrations self t ws) ∧
     (ws ∈ (broadcast send t m self').*1) ∧
     length (broadcast send t m self') = S (length (broadcast send t m self))) ∧
  ws_product false received OtherException t ws self = Some self ∧
  ws_product false received WebSocketDisconnect t ws self = Some self.
Proof.
  split_and!; [|done|done].
  unfold ws_product. rewrite ws_receive_loop_texts. cbn [ws_receive_loop].
  eexists. split; [done|]. unfold registrations.
  rewrite broadcast_channels, !broadcast_length, get_connect.
  split_and!.
  - rewrite filter_app, length_app. rewrite filter_cons_True by done. simpl. lia.
  - set_solver.
  - rewrite length_app. simpl. lia.
Qed.

End Sessions.

Section Interleaving.
Implicit Types (a b self : Active) (t : string) (ws : WebSocket).

Lemma run_from_cons self o ops :
  run_from self (o :: ops) = apply_op self o ≫= λ s, run_from s ops.
Proof.
  unfold run_from. simpl. destruct (apply_op self o) as [s|]; simpl; [done|].
  induction ops as [|o' ops IH]; [done|]. exact IH.
Qed.

Lemma run_from_app self ops1 ops2 :
  run_from self (ops1 ++ ops2) = run_from self ops1 ≫= λ s, run_from s ops2.
Proof.
  revert self. induction ops1 as [|o ops1 IH]; intros self; [done|].
  rewrite <- app_comm_cons, !run_from_cons.
  destruct (apply_op self o) as [s|]; simpl; [apply IH|done].
Qed.

Lemma with_session_step t ws a b o :
  registry_inv a → registry_inv b → with_session t ws a b → op_websocket o ≠ ws →
  ∃ a' b', apply_op a o = Some a' ∧ apply_op b o = Some b' ∧
    registry_inv a' ∧ registry_inv b' ∧ with_session t ws a' b'.
Proof.
  intros Ha Hb (Hother & l1 & l2 & Hga & Hgb & Hnot) Hws.
  destruct (registry_inv_apply_op a o Ha) as (a' & Ha' & Hinva).
  destruct (registry_inv_apply_op b o Hb) as (b' & Hb' & Hinvb).
  exists a', b'. split_and!; try done.
  destruct o as [accepted t' ws'|t' ws']; simpl in Ha', Hb', Hws.
  - injection Ha' as <-. injection Hb' as <-.
    destruct accepted; [|split; [done|by exists l1, l2]].
    destruct (decide (t' = t)) as [->|Hne].
    + split.
      * intros t'' Hne. unfold connect. rewrite !lookup_insert_ne by done.
        by apply Hother.
      * exists l1, (l2 ++ [ws']). rewrite !get_connect, Hga, Hgb. split_and!.
        -- by rewrite <- app_assoc.
        -- by rewrite app_assoc.
        -- rewrite app_assoc, elem_of_app, list_elem_of_singleton.
           intros [?|?]; [done|congruence].
    + assert (get a t' = get b t') as Hsame by (unfold get; by rewrite Hother).
      split.
      * intros t'' Hne''. unfold connect.
        destruct (decide (t'' = t')) as [->|Hne3].
        -- rewrite !lookup_insert_eq. by rewrite Hsame.
        -- rewrite !lookup_insert_ne by done. by apply Hother.
      * exists l1, l2. by rewrite !get_connect_ne.
  - destruct (disconnect_spec a t' ws') as (a1 & Hda & Hla & Hoa & _).
    rewrite Ha' in Hda. injection Hda as <-.
    destruct (disconnect_spec b t' ws') as (b1 & Hdb & Hlb & Hob & _).
    rewrite Hb' in Hdb. injection Hdb as <-.
    destruct (decide (t' = t)) as [->|Hne].
    + split.
      * intros t'' Hne. rewrite Hoa, Hob by done. by apply Hother.
      * rewrite Hga in Hla. rewrite Hgb in Hlb.
        rewrite list_remove_app in Hla, Hlb.
        destruct (list_remove ws' l1) as [l1'|] eqn:H1; simpl in Hla, Hlb.
        -- exists l1', l2. split_and!; [done|done|].
           pose proof (list_remove_subseteq _ _ _ H1) as Hsub.
           rewrite elem_of_app in *. intros [?|?]; apply Hnot; auto.
        -- rewrite decide_False in Hla by done.
           destruct (list_remove ws' l2) as [l2'|] eqn:H2; simpl in Hla, Hlb.
           ++ exists l1, l2'. split_and!; [done|done|].
              pose proof (list_remove_subseteq _ _ _ H2) as Hsub.
              rewrite elem_of_app in *. intros [?|?]; apply Hnot; auto.
           ++ by exists l1, l2.
    + assert (get a t' = get b t') as Hsame by (unfold get; by rewrite Hother).
      split.
      * intros t'' Hne''. destruct (decide (t'' = t')) as [->|Hne3].
        -- rewrite (registry_inv_lookup a' t' Hinva), (registry_inv_lookup b' t' Hinvb).
           by rewrite Hla, Hlb, Hsame.
        -- rewrite Hoa, Hob by done. by apply Hother.
      * exists l1, l2. unfold get in *. rewrite Hoa, Hob by done. done.
Qed.

Lemma with_session_run t ws ops : ∀ a b,
  registry_inv a → registry_inv b → with_session t ws a b →
  Forall (λ o, op_websocket o ≠ ws) ops →
  ∃ a' b', run_from a ops = Some a' ∧ run_from b ops = Some b' ∧
    registry_inv a' ∧ registry_inv b' ∧ with_session t ws a' b'.
Proof.
  induction ops as [|o ops IH]; intros a b Ha Hb Hab Hops.
  - by exists a, b.
  - apply Forall_cons in Hops as [Ho Hops].
    destruct (with_session_step t ws a b o Ha Hb Hab Ho)
      as (a1 & b1 & Ea & Eb & Ha1 & Hb1 & Hab1).
    rewrite !run_from_cons, Ea, Eb. simpl. by apply IH.
Qed.

(** X4: a session of a websocket that was not registered under the topic,
    from its [connect] to its [disconnect], leaves no trace, whatever the
    other websockets do in between: on a registry that satisfies the
    invariant, the operations of the others, under any topics, end in the
    same registry with the session around them as without it, and neither
    run raises. *)
Theorem session_leaves_no_trace self t ws (others : list op) :
  registry_inv self → ws ∉ get self t →
  Forall (λ o, op_websocket o ≠ ws) others →
  ∃ final, run_from self others = Some final ∧
    run_from self (Connect true t ws :: others ++ [Disconnect t ws]) = Some final.
Proof.
  intros Hinv Hnot Hothers.
  assert (with_session t ws (connect true t ws self) self) as Hstart.
  { split.
    - intros t' Hne. unfold connect. by rewrite lookup_insert_ne.
    - exists (get self t), []. rewrite get_connect, app_nil_r. done. }
  destruct (with_session_run t ws others (connect true t ws self) self)
    as (a & b & Ea & Eb & Ha & Hb & Hother & l1 & l2 & Hga & Hgb & Hn);
    [by apply registry_inv_connect|done|done|done|].
  exists b. split; [done|].
  assert (run_from self (Connect true t ws :: others ++ [Disconnect t ws])
          = run_from (connect true t ws self) (others ++ [Disconnect t ws])) as ->
    by by rewrite run_from_cons.
  rewrite run_from_app, Ea.
  change (disconnect t ws a = Some b).
  destruct (disconnect_spec a t ws) as (a' & Hd & Hl & Hoa & _).
  rewrite Hd. f_equal.
  apply registry_inv_eq; [exact (registry_inv_disconnect a a' t ws Ha Hd)|done|].
  intros t'. destruct (decide (t' = t)) as [->|Hne].
  - rewrite Hl, Hga, Hgb, list_remove_app.
    rewrite list_remove_not_elem; [|rewrite elem_of_app in Hn; tauto].
    simpl. by rewrite decide_True.
  - unfold get. rewrite Hoa by done. by rewrite Hother.
Qed.

Lemma session_leaves_no_trace_witness :
  ∃ final,
    run_from (connect_all "p1" [1; 2] init)
      [Connect true "p1" 3; Disconnect "p1" 1; Connect true "p2" 1] = Some final ∧
    run_from (connect_all "p1" [1; 2] init)
      (Connect true "p1" 7
       :: [Connect true "p1" 3; Disconnect "p1" 1; Connect true "p2" 1]
       ++ [Disconnect "p1" 7]) = Some final.
Proof.
  apply (session_leaves_no_trace (connect_all "p1" [1; 2] init) "p1" 7
           [Connect true "p1" 3; Disconnect "p1" 1; Connect true "p2" 1]).
  - destruct (registry_inv_run [Connect true "p1" 1; Connect true "p1" 2])
      as (s & Hs & Hinv).
    injection Hs as <-. exact Hinv.
  - by apply (bool_decide_unpack _).
  - by apply (bool_decide_unpack _).
Defined.

End Interleaving.

(** ** Properties of the endpoints together *)

Section EndpointProperties.
Context {OID : Type} `{Countable OID}.
Variable ObjectId : string → option OID.
Variable id_str : OID → string.
Variable new_id : gmap OID Product.t → OID.
Implicit Types (w : World OID) (now : datetime) (vote : VoteIn.t)
  (send : nat → WebSocket → Message → bool) (product : Product.t).


(** X6: [get_product] and [cast_vote] answer 404 for the same identifiers:
    those that [ObjectId] rejects and those under which nothing is stored.
    For every other identifier [get_product] returns the stored document
    with the identifier's text. *)
Theorem not_found_agrees now send pid vote w :
  (get_product ObjectId id_str pid w = Raise (HTTPException 404 "Product not found")
   ↔ ObjectId pid ≫= (db_product w !!.) = None) ∧
  ((cast_vote ObjectId now send pid vote w).1.2
   = Raise (HTTPException 404 "Product not found")
   ↔ ObjectId pid ≫= (db_product w !!.) = None) ∧
  (∀ _id product, ObjectId pid = Some _id → db_product w !! _id = Some product →
     get_product ObjectId id_str pid w = Return (id_str _id, product)).
Proof.
  split_and!.
  - unfold get_product, get_documents.
    destruct (ObjectId pid) as [_id|]; simpl; [|done].
    by destruct (db_product w !! _id).
  - destruct (ObjectId pid) as [_id|] eqn:Hid; simpl;
      [|unfold cast_vote; by rewrite Hid].
    destruct (db_product w !! _id) as [product|] eqn:Hdoc;
      [|unfold cast_vote, get_documents; by rewrite Hid, Hdoc].
    split; [|done]. intros Hr. exfalso.
    destruct (decide (Product.status product = Some "in_voting")) as [Hst|Hst];
      [|by rewrite (cast_vote_not_active ObjectId now send pid vote w _id product) in Hr].
    destruct (default ∅ (Product.counts product) !! option_key (VoteIn.option vote))
      as [n|] eqn:Hkey.
    + by rewrite (cast_vote_counted ObjectId now send pid vote w _id product n) in Hr.
    + by rewrite (cast_vote_invalid_option ObjectId now send pid vote w _id product) in Hr.
  - intros _id product Hid Hdoc. unfold get_product, get_documents.
    by rewrite Hid, Hdoc.
Qed.

(** X7: a product can be fetched and voted on as soon as it is created.
    When [create_product] returns an identifier and [ObjectId] reads that
    identifier back, [get_product] returns the same identifier and document,
    and a first vote, for any option, succeeds with that option at 1 and
    every other option at 0. *)
Theorem create_then_get_and_vote (hours : Z) now (payload : ProductIn.t) w w' pid doc
    now' send vote :
  create_product id_str new_id hours now payload w = (w', Return (pid, doc)) →
  ObjectId (id_str (new_id (db_product w))) = Some (new_id (db_product w)) →
  get_product ObjectId id_str pid w' = Return (pid, doc) ∧
  ∃ w'' calls,
    cast_vote ObjectId now' send pid vote w'
    = (w'', Return (mk_response true
                      (<[option_key (VoteIn.option vote) := 1%Z]> zero_counts)), calls).
Proof.
  intros Hcreate Hread. unfold create_product in Hcreate.
  destruct (timedelta_hours hours) as [window|]; [|done].
  destruct (datetime_add _ window) as [vote_end_at|]; [|done].
  unfold create_document in Hcreate. injection Hcreate as <- <- <-.
  split.
  - unfold get_product, get_documents. cbn [db_product]. rewrite Hread.
    by rewrite lookup_insert_eq.
  - match goal with
    | |- context [mk_world (<[_ := ?d]> _) _] => set (doc := d)
    end.
    assert (default ∅ (Product.counts doc) !! option_key (VoteIn.option vote)
            = Some 0%Z) as Hkey.
    { cbn [doc Product.counts default]. rewrite zero_counts_lookup.
      rewrite decide_True; [done|].
      destruct (VoteIn.option vote); by apply (bool_decide_unpack _). }
    match goal with
    | |- context [cast_vote _ _ _ _ _ ?x] => set (w1 := x)
    end.
    assert (db_product w1 !! new_id (db_product w) = Some doc) as Hdoc
      by apply lookup_insert_eq.
    rewrite (cast_vote_counted ObjectId now' send _ vote w1 _ doc 0%Z
               Hread Hdoc eq_refl Hkey).
    by eexists _, _.
Qed.

(** X8: the window of [create_product].  For any window and any request,
    when a document is returned its [vote_start_at] is the request's, or
    the clock reading when the request has none, and its [vote_end_at] is
    [window_hours] hours later with the same [tzinfo]; a request that
    carries its [vote_start_at] gets the same answer whatever the clock
    reads. *)
Theorem create_product_window (hours : Z) now (payload : ProductIn.t) w :
  (∀ w' pid doc,
     create_product id_str new_id hours now payload w = (w', Return (pid, doc)) →
     Product.vote_start_at doc = default now (ProductIn.vote_start_at payload) ∧
     wall (Product.vote_end_at doc)
     = (wall (Product.vote_start_at doc) + hours * 3600 * 1000000)%Z ∧
     tzinfo (Product.vote_end_at doc) = tzinfo (Product.vote_start_at doc) ∧
     datetime_ok (Product.vote_end_at doc) = true) ∧
  (∀ now2, is_Some (ProductIn.vote_start_at payload) →
     create_product id_str new_id hours now2 payload w
     = create_product id_str new_id hours now payload w).
Proof.
  split.
  - intros w' pid doc Hcreate. unfold create_product in Hcreate.
    unfold timedelta_hours in Hcreate.
    destruct (Z.abs _ <=? MAX_DELTA_DAYS)%Z; [|done].
    unfold datetime_add in Hcreate.
    destruct (datetime_ok _) eqn:Hok; [|done].
    unfold create_document in Hcreate. injection Hcreate as <- <- <-.
    cbn [Product.vote_start_at Product.vote_end_at wall tzinfo]. done.
  - intros now2 [start Hstart]. unfold create_product. by rewrite Hstart.
Qed.


End EndpointProperties.



(** ** Tallies and the documents of the store *)

Section StoreProperties.
Context {OID : Type} `{Countable OID}.
Variable ObjectId : string → option OID.
Variable id_str : OID → string.
Variable new_id : gmap OID Product.t → OID.
Implicit Types (w : World OID) (now : datetime) (vote : VoteIn.t)
  (send : nat → WebSocket → Message → bool) (product : Product.t).

Lemma votes_for_cons (k : string) now send vote
    (rest : list (datetime * (nat → WebSocket → Message → bool) * VoteIn.t)) :
  votes_for k ((now, send, vote) :: rest)
  = ((if decide (option_key (VoteIn.option vote) = k) then 1 else 0)
     + votes_for k rest)%nat.
Proof.
  unfold votes_for. rewrite filter_cons. simpl.
  by destruct (decide (option_key (VoteIn.option vote) = k)).
Qed.

(** X10: votes add up.  On a product that is [in_voting], a run of votes
    whose options are all keys of its counts succeeds call by call, with
    one response and one broadcast each, keeps the set of keys, and leaves
    every tally higher by exactly the number of votes of the run for that
    option. *)
Theorem cast_votes_tally pid
    (calls : list (datetime * (nat → WebSocket → Message → bool) * VoteIn.t)) :
  ∀ w _id product (counts : gmap string Z),
  ObjectId pid = Some _id → db_product w !! _id = Some product →
  Product.status product = Some "in_voting" →
  Product.counts product = Some counts →
  Forall (λ c, is_Some (counts !! option_key (VoteIn.option c.2))) calls →
  let r := cast_votes ObjectId pid calls w in
  Forall (λ o, ∃ resp, o = Return resp) r.1.2 ∧
  length r.1.2 = length calls ∧ length r.2 = length calls ∧
  dom (stored_counts ObjectId pid r.1.1) = dom counts ∧
  ∀ (k : string) (n : Z), counts !! k = Some n →
    stored_counts ObjectId pid r.1.1 !! k = Some (n + Z.of_nat (votes_for k calls))%Z.
Proof.
  induction calls as [|[[now send] vote] rest IH];
    intros w _id product counts Hid Hdoc Hst Hc Hkeys.
  - simpl. unfold stored_counts. rewrite Hid, Hdoc, Hc. simpl.
    split_and!; [constructor|done|done|done|].
    intros k n Hk. rewrite Hk. f_equal. unfold votes_for. simpl. lia.
  - apply Forall_cons in Hkeys as [[n0 Hkey] Hkeys]. simpl in Hkey.
    pose (c1 := <[option_key (VoteIn.option vote) := (n0 + 1)%Z]> counts).
    pose (w1 := mk_world (<[_id := Product.set_counts c1 product]> (db_product w))
                  (manager w)).
    assert (∃ b, cast_vote ObjectId now send pid vote w
                 = (w1, Return (mk_response true c1), [b])) as [b E1].
    { eexists.
      rewrite (cast_vote_counted ObjectId now send pid vote w _id product n0);
        [|done|done|done|by rewrite Hc].
      by rewrite Hc. }
    assert (Forall (λ c, is_Some (c1 !! option_key (VoteIn.option c.2))) rest) as Hkeys1.
    { eapply Forall_impl; [exact Hkeys|]. intros c [m Hm]. unfold c1.
      rewrite lookup_insert. case_decide; by eexists. }
    specialize (IH w1 _id (Product.set_counts c1 product) c1 Hid
                  (lookup_insert_eq _ _ _) Hst eq_refl Hkeys1).
    cbn [cast_votes]. rewrite E1.
    destruct (cast_votes ObjectId pid rest w1) as [[w2 rs] bs2].
    cbn [fst snd] in *. destruct IH as (Hall & Hlr & Hlb & Hdom & Htally).
    split_and!.
    + constructor; [by eexists|done].
    + simpl. by rewrite Hlr.
    + simpl. by rewrite Hlb.
    + rewrite Hdom. unfold c1. by apply dom_insert_lookup_L.
    + intros k n Hk. rewrite votes_for_cons.
      destruct (decide (option_key (VoteIn.option vote) = k)) as [<-|Hne].
      * rewrite (Htally _ (n0 + 1)%Z) by apply lookup_insert_eq.
        rewrite Hkey in Hk. injection Hk as <-. f_equal. lia.
      * rewrite (Htally k n) by (unfold c1; by rewrite lookup_insert_ne).
        f_equal.
Qed.






End StoreProperties.

(** ** Listing, and the topic of a vote *)

Section ListingProperties.
Context {OID : Type} `{Countable OID}.
Variable ObjectId : string → option OID.
Variable id_str : OID → string.
Implicit Types (w : World OID) (now : datetime) (vote : VoteIn.t)
  (send : nat → WebSocket → Message → bool) (product : Product.t).

Lemma length_filter_map_to_list (P : OID * Product.t → Prop) `{∀ x, Decision (P x)}
    (db : gmap OID Product.t) :
  length (filter P (map_to_list db)) = size (filter P db).
Proof.
  rewrite (map_filter_alt P db).
  rewrite <- (length_map_to_list (list_to_map _)).
  apply Permutation_length. symmetry. apply map_to_list_to_map.
  apply (sublist_NoDup _ (map_to_list db).*1); [apply NoDup_fst_map_to_list|].
  apply fmap_sublist, sublist_filter.
Qed.

Lemma list_products_lists w _id doc :
  size (filter (λ it : OID * Product.t, Product.status it.2 = Some "in_voting")
          (db_product w)) ≤ 100 →
  db_product w !! _id = Some doc → Product.status doc = Some "in_voting" →
  (id_str _id, doc) ∈ list_products id_str w.
Proof.
  intros Hfew Hdoc Hst. unfold list_products, get_documents_by_status.
  rewrite take_ge by (by rewrite length_filter_map_to_list).
  apply (list_elem_of_fmap_2' _ _ (_id, doc)); [|done].
  apply list_elem_of_filter. split; [done|]. by apply elem_of_map_to_list.
Qed.

(** X12: [list_products] lists products that are stored and [in_voting],
    each under the text of its identifier, and as many of them as there
    are, up to 100; when no more than 100 products are [in_voting] every one
    of them is listed. *)
Theorem list_products_sound_complete w :
  let in_voting := λ it : OID * Product.t, Product.status it.2 = Some "in_voting" in
  length (list_products id_str w) = min 100 (size (filter in_voting (db_product w))) ∧
  (∀ s doc, (s, doc) ∈ list_products id_str w →
     ∃ _id, s = id_str _id ∧ db_product w !! _id = Some doc ∧
            Product.status doc = Some "in_voting") ∧
  (size (filter in_voting (db_product w)) ≤ 100 →
   ∀ _id doc, db_product w !! _id = Some doc →
     Product.status doc = Some "in_voting" →
     (id_str _id, doc) ∈ list_products id_str w).
Proof.
  intros in_voting. unfold list_products, get_documents_by_status.
  fold in_voting. split_and!.
  - by rewrite length_fmap, length_take, length_filter_map_to_list.
  - intros s doc Hin. apply list_elem_of_fmap in Hin as ([_id d] & [= -> ->] & Hin).
    apply subseteq_take, list_elem_of_filter in Hin as [Hst Hin].
    apply elem_of_map_to_list in Hin. by exists _id.
  - intros Hfew _id doc Hdoc Hst. by apply list_products_lists.
Qed.

(** X13: the registry is keyed by the text of the identifier as the client
    wrote it, the store by the identifier that text denotes.  When two
    different texts denote the same stored product, a vote cast through
    the first changes the counts that [get_product] shows through the
    second, yet its broadcast goes to the channels registered under the
    first text only: a channel registered only under the second is not
    sent to. *)
Theorem vote_broadcast_follows_spelling now send (p1 p2 : string) vote w _id product
    (n : Z) :
  ObjectId p1 = Some _id → ObjectId p2 = Some _id → p1 ≠ p2 →
  db_product w !! _id = Some product →
  Product.status product = Some "in_voting" →
  default ∅ (Product.counts product) !! option_key (VoteIn.option vote) = Some n →
  let r := cast_vote ObjectId now send p1 vote w in
  ∃ counts attempts,
    r.1.2 = Return (mk_response true counts) ∧
    counts !! option_key (VoteIn.option vote) = Some (n + 1)%Z ∧
    get_product ObjectId id_str p2 r.1.1
    = Return (id_str _id, Product.set_counts counts product) ∧
    r.2 = [mk_call p1 (mk_message "votes.update" p1 counts now) attempts] ∧
    attempts.*1 = get (manager w) p1 ∧
    ∀ ws, ws ∈ get (manager w) p2 → ws ∉ get (manager w) p1 → ws ∉ attempts.*1.
Proof.
  intros Hp1 Hp2 Hne Hdoc Hst Hkey r. unfold r.
  rewrite (cast_vote_counted ObjectId now send p1 vote w _id product n) by done.
  eexists _, _. cbn [fst snd]. split_and!; [done| | |done|apply broadcast_channels|].
  - by rewrite lookup_insert_eq.
  - unfold get_product, get_documents. cbn [db_product].
    by rewrite Hp2, lookup_insert_eq.
  - intros ws _ Hnot. by rewrite broadcast_channels.
Qed.

End ListingProperties.

Lemma create_then_get_and_vote_witness :
  get_product Demo.ObjectId Demo.id_str Demo.pid Demo.world
  = Return (Demo.pid, Demo.product) ∧
  ∃ w'' calls,
    cast_vote Demo.ObjectId Demo.now Demo.second_fails Demo.pid
      (Demo.vote not_interested) Demo.world
    = (w'', Return (mk_response true (<["not_interested" := 1%Z]> zero_counts)),
       calls).
Proof.
  apply (create_then_get_and_vote Demo.ObjectId Demo.id_str Demo.new_id 72 Demo.now
           Demo.payload (mk_world ∅ (manager Demo.world)) Demo.world Demo.pid
           Demo.product Demo.now Demo.second_fails (Demo.vote not_interested));
    reflexivity.
Defined.

Lemma cast_votes_tally_witness :
  let r := cast_votes Demo.ObjectId Demo.pid
             [(Demo.now, Demo.all_delivered, Demo.vote raffle);
              (Demo.now, Demo.second_fails, Demo.vote auction);
              (Demo.now, Demo.all_delivered, Demo.vote raffle)] Demo.world in
  length r.2 = 3 ∧
  stored_counts Demo.ObjectId Demo.pid r.1.1 !! "raffle" = Some 2%Z ∧
  stored_counts Demo.ObjectId Demo.pid r.1.1 !! "auction" = Some 1%Z ∧
  stored_counts Demo.ObjectId Demo.pid r.1.1 !! "buy_now" = Some 0%Z.
Proof.
  intros r.
  destruct (cast_votes_tally Demo.ObjectId Demo.pid
              [(Demo.now, Demo.all_delivered, Demo.vote raffle);
               (Demo.now, Demo.second_fails, Demo.vote auction);
               (Demo.now, Demo.all_delivered, Demo.vote raffle)]
              Demo.world Demo.pid Demo.product zero_counts
              eq_refl eq_refl eq_refl eq_refl)
    as (_ & _ & Hcalls & _ & Htally).
  - repeat constructor; by eexists.
  - split_and!; [exact Hcalls|..].
    + exact (Htally "raffle" 0%Z eq_refl).
    + exact (Htally "auction" 0%Z eq_refl).
    + exact (Htally "buy_now" 0%Z eq_refl).
Defined.

Lemma vote_broadcast_follows_spelling_witness :
  let r := cast_vote Hex.ObjectId Demo.now Demo.all_delivered Hex.pid_upper
             (Demo.vote raffle) Hex.world in
  ∃ counts attempts,
    r.1.2 = Return (mk_response true counts) ∧
    counts !! "raffle" = Some 1%Z ∧
    get_product Hex.ObjectId Hex.id_str Hex.pid_lower r.1.1
    = Return (Hex.pid_lower, Product.set_counts counts Demo.product) ∧
    r.2 = [mk_call Hex.pid_upper
             (mk_message "votes.update" Hex.pid_upper counts Demo.now) attempts] ∧
    attempts.*1 = [2] ∧
    ∀ ws, ws ∈ [1] → ws ∉ [2] → ws ∉ attempts.*1.
Proof.
  apply (vote_broadcast_follows_spelling Hex.ObjectId Hex.id_str Demo.now
           Demo.all_delivered Hex.pid_upper Hex.pid_lower (Demo.vote raffle)
           Hex.world Hex.pid_lower Demo.product 0%Z);
    [reflexivity|reflexivity|discriminate|reflexivity|reflexivity|reflexivity].
Defined.

Lemma registry_topics_independent_witness :
  let self := connect_all "p1" [1; 2] init in
  connect true "p2" 3 self !! "p1" = self !! "p1" ∧
  broadcast Demo.second_fails "p1" (mk_message "votes.update" "p1" zero_counts Demo.now)
    (connect true "p2" 3 self)
  = broadcast Demo.second_fails "p1"
      (mk_message "votes.update" "p1" zero_counts Demo.now) self ∧
  ∃ self', disconnect "p2" 1 self = Some self' ∧
    self' !! "p1" = self !! "p1" ∧
    broadcast Demo.second_fails "p1"
      (mk_message "votes.update" "p1" zero_counts Demo.now) self'
    = broadcast Demo.second_fails "p1"
        (mk_message "votes.update" "p1" zero_counts Demo.now) self.
Proof.
  apply (registry_topics_independent Demo.second_fails
           (mk_message "votes.update" "p1" zero_counts Demo.now)
           (connect_all "p1" [1; 2] init) "p1" "p2" 1 true).
  discriminate.
Defined.

Lemma not_found_agrees_witness :
  get_product Demo.ObjectId Demo.id_str Demo.pid Demo.world
  = Return (Demo.pid, Demo.product) ∧
  get_product Demo.ObjectId Demo.id_str "not-an-id" Demo.world
  = Raise (HTTPException 404 "Product not found") ∧
  (cast_vote Demo.ObjectId Demo.now Demo.all_delivered "not-an-id" (Demo.vote raffle)
     Demo.world).1.2
  = Raise (HTTPException 404 "Product not found").
Proof.
  destruct (not_found_agrees Demo.ObjectId Demo.id_str Demo.now Demo.all_delivered
              Demo.pid (Demo.vote raffle) Demo.world) as (_ & _ & Hfound).
  destruct (not_found_agrees Demo.ObjectId Demo.id_str Demo.now Demo.all_delivered
              "not-an-id" (Demo.vote raffle) Demo.world) as (Hget & Hvote & _).
  split_and!.
  - apply (Hfound Demo.pid Demo.product); reflexivity.
  - apply Hget. reflexivity.
  - apply Hvote. reflexivity.
Defined.

Lemma create_product_window_witness :
  let start := mk_datetime (738900 * DAY + 3600 * 1000000) None in
  let payload :=
    ProductIn.mk "Vintage watch" None [] None None None None None None (Some start) in
  create_product Demo.id_str Demo.new_id 24 Demo.now payload Demo.world
  = create_product Demo.id_str Demo.new_id 24 start payload Demo.world ∧
  ∃ w' pid doc,
    create_product Demo.id_str Demo.new_id 24 Demo.now payload Demo.world
    = (w', Return (pid, doc)) ∧
    Product.vote_start_at doc = start ∧
    Product.vote_end_at doc = mk_datetime (738901 * DAY + 3600 * 1000000) None.
Proof.
  intros start payload.
  destruct (create_product_window Demo.id_str Demo.new_id 24 start payload Demo.world)
    as [Hdoc Hclock].
  split.
  - apply Hclock. by eexists.
  - eexists _, _, _. split; [reflexivity|].
    destruct (Hdoc _ _ _ eq_refl) as (Hstart & _). split; [exact Hstart|reflexivity].
Defined.

Lemma list_products_sound_complete_witness :
  (Demo.pid, Demo.product) ∈ list_products Demo.id_str Demo.world.
Proof.
  destruct (list_products_sound_complete Demo.id_str Demo.world) as (_ & _ & Hall).
  apply (Hall ltac:(vm_compute; lia) Demo.pid Demo.product); reflexivity.
Defined.

Section MoreStoreProperties.
Context {OID : Type} `{Countable OID}.
Variable ObjectId : string → option OID.
Variable id_str : OID → string.
Variable new_id : gmap OID Product.t → OID.
Implicit Types (w : World OID) (now : datetime) (vote : VoteIn.t)
  (send : nat → WebSocket → Message → bool) (product : Product.t).

(** X14: a product that [create_product] returns is listed by
    [list_products] right away, under the identifier returned, as long as
    no more than 100 products are then [in_voting]. *)
Theorem created_product_is_listed (hours : Z) now (payload : ProductIn.t) w w' pid doc :
  create_product id_str new_id hours now payload w = (w', Return (pid, doc)) →
  size (filter (λ it : OID * Product.t, Product.status it.2 = Some "in_voting")
          (db_product w')) ≤ 100 →
  (pid, doc) ∈ list_products id_str w'.
Proof.
  intros Hcreate Hfew. unfold create_product in Hcreate.
  destruct (timedelta_hours hours) as [window|]; [|done].
  destruct (datetime_add _ window) as [vote_end_at|]; [|done].
  unfold create_document in Hcreate. injection Hcreate as <- <- <-.
  apply (list_products_lists id_str _ _ _ Hfew); [apply lookup_insert_eq|done].
Qed.

(** X15: [cast_vote] writes counts and nothing else.  Whatever the request,
    the store afterwards has the same identifiers as before, every document
    other than the one voted on is as it was, and the one voted on differs
    from what it was in its counts at most: status, voting window, locales,
    images and prices are untouched. *)
Theorem cast_vote_writes_counts_only now send pid vote w :
  let w' := (cast_vote ObjectId now send pid vote w).1.1 in
  dom (db_product w') = dom (db_product w) ∧
  (∀ i, ObjectId pid ≠ Some i → db_product w' !! i = db_product w !! i) ∧
  (∀ i product, db_product w !! i = Some product →
     db_product w' !! i = Some product ∨
     ∃ counts, db_product w' !! i = Some (Product.set_counts counts product)).
Proof.
  destruct (ObjectId pid) as [_id|] eqn:Hid;
    [|unfold cast_vote; rewrite Hid; simpl; split_and!; [done|done|by left]].
  destruct (db_product w !! _id) as [product|] eqn:Hdoc;
    [|unfold cast_vote, get_documents; rewrite Hid, Hdoc; simpl;
      split_and!; [done|done|by left]].
  destruct (decide (Product.status product = Some "in_voting")) as [Hst|Hst];
    [|rewrite (cast_vote_not_active ObjectId now send pid vote w _id product) by done;
      simpl; split_and!; [done|done|by left]].
  destruct (default ∅ (Product.counts product) !! option_key (VoteIn.option vote))
    as [n|] eqn:Hkey;
    [|rewrite (cast_vote_invalid_option ObjectId now send pid vote w _id product) by done;
      simpl; split_and!; [done|done|by left]].
  rewrite (cast_vote_counted ObjectId now send pid vote w _id product n) by done.
  simpl. split_and!.
  - by apply dom_insert_lookup_L.
  - intros i Hi. rewrite lookup_insert_ne; [done|congruence].
  - intros i p Hp. destruct (decide (i = _id)) as [->|Hne].
    + assert (p = product) as -> by congruence.
      right. eexists. by rewrite lookup_insert_eq.
    + left. by rewrite lookup_insert_ne.
Qed.

End MoreStoreProperties.

Lemma created_product_is_listed_witness :
  (Demo.pid, Demo.product) ∈ list_products Demo.id_str Demo.world.
Proof.
  apply (created_product_is_listed Demo.id_str Demo.new_id 72 Demo.now Demo.payload
           (mk_world ∅ (manager Demo.world)) Demo.world Demo.pid Demo.product).
  - reflexivity.
  - vm_compute. lia.
Defined.
